(** * The meteorite report engine of [Final_Project.py]

    A shallow embedding of the three aggregation functions of the
    dashboard ([getMeteorsPerYear], [sortClassAndFindValues], [sortName])
    and of the data-frame operations they are written with, followed by
    the properties the specification states about them.

    Conventions.
    - A float64 column is a list of binary64 floats ([PrimFloat]); a
      missing cell is NaN, as in the data-frame library.
    - An object column (strings) and the integer-valued columns [id] and
      [year] hold [option] cells; [None] is the missing cell. The columns
      [name] and [recclass] are object columns and [mass (g)], [reclat]
      and [reclong] are float64 columns, as read from the data file.
    - A grouped frame, a series and a Python [dict] are association lists:
      their order is observable (it is the order of iteration).
    - The functions run in a small state-and-exception monad over the
      objects they can mutate: the frame bound to [meteordf] and the
      library's display option.
    - Sums of floats are taken in the order in which the libraries take
      them: a grouped mean by compensated summation, the mean of a
      series by pairwise summation. *)

From Stdlib Require Import Bool List ZArith Lia String Ascii Floats Uint63.
From Stdlib Require Import Sorted Permutation OrderedTypeEx.
Import ListNotations.

Set Warnings "-inexact-float".

(** ** Group keys

    Group keys and index labels are compared with the language's own
    order: integers numerically, strings lexicographically by character
    code. *)

Class KeyOrder (K : Type) := {
  kcmp : K -> K -> comparison;
  kcmp_eq : forall a b, kcmp a b = Eq <-> a = b;
  kcmp_antisym : forall a b, kcmp b a = CompOpp (kcmp a b);
  kcmp_trans : forall a b c, kcmp a b = Lt -> kcmp b c = Lt -> kcmp a c = Lt
}.

Definition klt {K} `{KeyOrder K} (a b : K) : Prop := kcmp a b = Lt.

Definition keqb {K} `{KeyOrder K} (a b : K) : bool :=
  match kcmp a b with Eq => true | _ => false end.

#[export] Program Instance Z_KeyOrder : KeyOrder Z := {| kcmp := Z.compare |}.
Next Obligation. apply Z.compare_eq_iff. Qed.
Next Obligation. apply Z.compare_antisym. Qed.
Next Obligation.
  rewrite Z.compare_lt_iff in *. lia.
Qed.

#[export] Program Instance string_KeyOrder : KeyOrder string :=
  {| kcmp := String.compare |}.
Next Obligation. apply String_as_OT.cmp_eq. Qed.
Next Obligation. apply String.compare_antisym. Qed.
Next Obligation.
  rewrite String_as_OT.cmp_lt in *.
  eapply String_as_OT.lt_trans; eassumption.
Qed.

(** ** Exceptions and the state monad *)

Inductive exn : Type :=
| KeyError
| AttributeError
| ValueError.

Inductive result (A : Type) : Type :=
| Ok (a : A)
| Raise (e : exn).
Arguments Ok {A} a.
Arguments Raise {A} e.

(** ** Series, grouped frames and label lookup *)

Definition Series (K V : Type) := list (K * V).

Section Lookup.
Context {K V : Type} `{KeyOrder K}.

(** Position of a label in an index: the first entry with that label. *)
Fixpoint lookup (s : Series K V) (label : K) : option V :=
  match s with
  | [] => None
  | (k, v) :: s' => if keqb label k then Some v else lookup s' label
  end.

(** [s.loc[label]]: the value at the label, [KeyError] when the index
    does not hold it. *)
Definition loc (s : Series K V) (label : K) : result V :=
  match lookup s label with
  | Some v => Ok v
  | None => Raise KeyError
  end.

(** [s.loc[labels]] with a list of labels: one entry per requested
    label, in the order of the request; [KeyError] when a label is not
    in the index. *)
Fixpoint loc_list (s : Series K V) (labels : list K) : result (Series K V) :=
  match labels with
  | [] => Ok []
  | k :: ks =>
      match lookup s k with
      | None => Raise KeyError
      | Some v =>
          match loc_list s ks with
          | Ok rest => Ok ((k, v) :: rest)
          | Raise e => Raise e
          end
      end
  end.
(** An index in strictly ascending label order. *)
Definition sorted_keys (s : Series K V) : Prop :=
  StronglySorted klt (map fst s).
End Lookup.

Section GroupBy.
Context {K A : Type} `{KeyOrder K}.

(** One step of the grouping pass: the row joins the group of its key,
    at the end (row order is kept inside a group); a new key opens a
    group at its sorted position. *)
Fixpoint add_to_group (k : K) (r : A) (gs : Series K (list A))
  : Series K (list A) :=
  match gs with
  | [] => [(k, [r])]
  | (k', rs) :: gs' =>
      match kcmp k k' with
      | Lt => (k, [r]) :: gs
      | Eq => (k', rs ++ [r]) :: gs'
      | Gt => (k', rs) :: add_to_group k r gs'
      end
  end.

Definition group_step (col : A -> option K) (gs : Series K (list A)) (r : A) :=
  match col r with
  | Some k => add_to_group k r gs
  | None => gs
  end.

(** [df.groupby(col)], with the library's defaults: rows whose key is
    missing are left out and the groups come in ascending key order. *)
Definition groupby (col : A -> option K) (df : list A) : Series K (list A) :=
  fold_left (group_step col) df [].

(** A per-group aggregation: one value per group, same index. *)
Definition agg {V} (f : list A -> V) (gs : Series K (list A)) : Series K V :=
  map (fun kg => (fst kg, f (snd kg))) gs.

(** Rows of a frame whose key is [k]. *)
Definition has_key (col : A -> option K) (k : K) (r : A) : bool :=
  match col r with
  | Some k' => keqb k' k
  | None => false
  end.

Definition rows_with (col : A -> option K) (k : K) (df : list A) : list A :=
  filter (has_key col k) df.

Definition nonempty (l : list A) : option (list A) :=
  match l with [] => None | _ => Some l end.
End GroupBy.


(** ** Float columns *)

Definition notna (x : float) : bool := negb (PrimFloat.is_nan x).

Definition isSome {A} (c : option A) : bool :=
  match c with Some _ => true | None => false end.

(** [col.count()]: the number of cells that hold a value. *)
Definition count {A} (col : list (option A)) : Z :=
  Z.of_nat (List.length (filter isSome col)).

Definition float_of_nat (n : nat) : float :=
  PrimFloat.of_uint63 (Uint63.of_Z (Z.of_nat n)).

(** The sum of one group as [grouped.mean()] accumulates it, one cell
    after the other in row order: a compensated sum, whose compensation
    term is set back to zero when it is not a number. *)
Definition kahan_step (sc : float * float) (val : float) : float * float :=
  let sumx := fst sc in
  let compensation := snd sc in
  let y := (val - compensation)%float in
  let t := (sumx + y)%float in
  let c := (t - sumx - y)%float in
  (t, if PrimFloat.is_nan c then 0%float else c).

Definition kahan_sum (l : list float) : float :=
  fst (fold_left kahan_step l (0%float, 0%float)).

(** [grouped.mean()] for one group and one column: the compensated sum of
    the cells that hold a value over their number; NaN for none. *)
Definition group_mean (col : list float) : float :=
  match filter notna col with
  | [] => PrimFloat.nan
  | vals => (kahan_sum vals / float_of_nat (List.length vals))%float
  end.

(** The sum of a float64 array as the array library takes it (pairwise
    summation). An array of fewer than 8 cells is summed left to right.
    An array of at most 128 cells is summed in eight running sums, the
    [j]-th over the cells [j], [8+j], [16+j], ... of the whole groups of
    eight; the eight sums are added as a tree and the cells after the last
    whole group are added one by one. A longer array is cut in two, the
    first part of [n/2] cells rounded down to a multiple of 8, and the two
    sums are added. *)
Definition sum_from (acc : float) (a : list float) : float :=
  fold_left PrimFloat.add a acc.

Record sums8 : Type := mkSums8 {
  r0 : float; r1 : float; r2 : float; r3 : float;
  r4 : float; r5 : float; r6 : float; r7 : float
}.

Fixpoint add_groups (r : sums8) (a : list float) : sums8 * list float :=
  match a with
  | a0 :: a1 :: a2 :: a3 :: a4 :: a5 :: a6 :: a7 :: a' =>
      add_groups
        (mkSums8 (r0 r + a0) (r1 r + a1) (r2 r + a2) (r3 r + a3)
                 (r4 r + a4) (r5 r + a5) (r6 r + a6) (r7 r + a7))%float
        a'
  | _ => (r, a)
  end.

Definition block_sum (a : list float) : float :=
  match a with
  | a0 :: a1 :: a2 :: a3 :: a4 :: a5 :: a6 :: a7 :: a' =>
      let (r, rest) := add_groups (mkSums8 a0 a1 a2 a3 a4 a5 a6 a7) a' in
      let res := (((r0 r + r1 r) + (r2 r + r3 r))
                  + ((r4 r + r5 r) + (r6 r + r7 r)))%float in
      sum_from res rest
  | _ => sum_from (-0)%float a
  end.

(** [fuel] bounds the depth of the cuts; the length of the array is
    enough, as both parts of a cut are shorter than the array. *)
Fixpoint pairwise_sum_rec (fuel : nat) (a : list float) : float :=
  let n := List.length a in
  if (n <=? 128)%nat then block_sum a
  else
    match fuel with
    | O => block_sum a
    | S fuel' =>
        let n2 := (n / 2)%nat in
        let n2 := (n2 - n2 mod 8)%nat in
        (pairwise_sum_rec fuel' (firstn n2 a)
         + pairwise_sum_rec fuel' (skipn n2 a))%float
    end.

Definition pairwise_sum (a : list float) : float :=
  pairwise_sum_rec (List.length a) a.

Definition fillna0 (x : float) : float :=
  if PrimFloat.is_nan x then 0%float else x.

(** [pd.Series.mean(col)] with the library's default [skipna=True] on a
    float64 column: the missing cells are set to zero, the array is
    summed, and the sum is divided by the number of cells that hold a
    value; NaN for none. *)
Definition Series_mean (col : list float) : float :=
  let values := map fillna0 col in
  let count := List.length (filter notna col) in
  match count with
  | O => PrimFloat.nan
  | _ => (pairwise_sum values / float_of_nat count)%float
  end.

Definition fmax (m x : float) : float := if (m <? x)%float then x else m.
Definition fmin (m x : float) : float := if (x <? m)%float then x else m.

(** [col.max()] and [col.min()], missing cells skipped; NaN for none. *)
Definition col_max (col : list float) : float :=
  match filter notna col with
  | [] => PrimFloat.nan
  | v :: vs => fold_left fmax vs v
  end.

Definition col_min (col : list float) : float :=
  match filter notna col with
  | [] => PrimFloat.nan
  | v :: vs => fold_left fmin vs v
  end.

(** ** The table *)

(** One row of the frame.
    - [id_], [name], [recclass], [mass_g], [reclat], [reclong], [year]:
      the columns [id], [name], [recclass], [mass (g)], [reclat],
      [reclong] and [year] the program reads. The float columns mark a
      missing cell with NaN; a year is a whole number or missing.
    - [others]: the cells of whatever further columns the input file has
      (the program never names them; only whether they hold a value
      matters, to [dropna]).
    - [firstLetter]: the cell of the column that [sortName] adds to the
      frame: [None] while the frame has no such column, [Some c] for its
      cell [c]. *)
Record Row : Type := mkRow {
  id_ : option Z;
  name : option string;
  recclass : option string;
  mass_g : float;
  reclat : float;
  reclong : float;
  year : option Z;
  others : list (option string);
  firstLetter : option (option string)
}.

Definition DataFrame := list Row.

(** The objects the aggregation functions can reach and mutate: the frame
    passed as [meteordf] and [pd.options.display.float_format]. *)
Record World : Type := mkWorld {
  meteordf : DataFrame;
  float_format : option string
}.

Definition Py (A : Type) : Type := World -> result A * World.

Definition ret {A} (a : A) : Py A := fun w => (Ok a, w).

Definition bind {A B} (c : Py A) (k : A -> Py B) : Py B :=
  fun w =>
    match c w with
    | (Ok a, w') => k a w'
    | (Raise e, w') => (Raise e, w')
    end.

Definition lift {A} (r : result A) : Py A := fun w => (r, w).

Definition get_frame : Py DataFrame := fun w => (Ok (meteordf w), w).

Definition set_frame (df : DataFrame) : Py unit :=
  fun w => (Ok tt, mkWorld df (float_format w)).

Definition set_float_format (f : string) : Py unit :=
  fun w => (Ok tt, mkWorld (meteordf w) (Some f)).

Declare Scope py_scope.
Delimit Scope py_scope with py.
Notation "x <- c ;; k" := (bind c (fun x => k))
  (at level 61, c at next level, right associativity) : py_scope.
Notation "c ;;; k" := (bind c (fun _ => k))
  (at level 61, right associativity) : py_scope.

(** ** Frame operations *)

(** Order of [sort_values]: ascending, missing keys last. *)
Definition year_le (a b : option Z) : bool :=
  match a, b with
  | Some x, Some y => (x <=? y)%Z
  | Some _, None => true
  | None, Some _ => false
  | None, None => true
  end.

Fixpoint insert_by_year (r : Row) (df : DataFrame) : DataFrame :=
  match df with
  | [] => [r]
  | r' :: df' =>
      if year_le (year r) (year r') then r :: df
      else r' :: insert_by_year r df'
  end.

(** [df.sort_values(by=["year"])]: a new frame, the rows in ascending
    year order. *)
Definition sort_values_year (df : DataFrame) : DataFrame :=
  fold_right insert_by_year [] df.

(** A row with a value in every column. *)
Definition complete (r : Row) : bool :=
  isSome (id_ r) && isSome (name r) && isSome (recclass r)
  && notna (mass_g r) && notna (reclat r) && notna (reclong r)
  && isSome (year r) && forallb isSome (others r)
  && match firstLetter r with Some None => false | _ => true end.

(** [df.dropna()]: a new frame without the rows that miss any value. *)
Definition dropna (df : DataFrame) : DataFrame := filter complete df.

(** ** The aggregation functions *)

Open Scope py_scope.

(** Default values of the parameters [years] and [recclass]. *)
Definition default_years : list Z := [1970; 860]%Z.
Definition default_recclass : string := "Acapulcoite"%string.

(** [getMeteorsPerYear(meteordf, years)]. The labels of the index are the
    years of the column, and a requested label is looked up by
    comparison with them. The column is a float64 column as soon as a
    year is missing, and a requested label is then compared as a float64
    value: this is the comparison of whole numbers written here for the
    years that float64 holds exactly ([float64_year] below). *)
Definition getMeteorsPerYear (years : list Z) : Py (Series Z Z) :=
  df <- get_frame ;;
  let yearsdf := sort_values_year df in
  let yearsCountdf := agg (fun g => count (map id_ g)) (groupby year yearsdf) in
  lift (loc_list yearsCountdf years).

(** The tuple [sortClassAndFindValues] returns, under the names of the
    variables it is built from. *)
Record ClassValues : Type := mkClassValues {
  aveweight : float;
  avelat : float;
  avelong : float;
  meanweightclass : float;
  count_ : Z;
  maxweight : float;
  minweight : float
}.

(** [sortClassAndFindValues(meteordf, recclass)] *)
Definition sortClassAndFindValues (cls : string) : Py ClassValues :=
  df <- get_frame ;;
  let grouped := groupby recclass (dropna df) in
  let means := agg (fun g => group_mean (map mass_g g)) grouped in
  count <- lift (loc (agg (fun g => count (map name g)) grouped) cls) ;;
  let maxgroups := agg (fun g => col_max (map mass_g g)) grouped in
  let mingroups := agg (fun g => col_min (map mass_g g)) grouped in
  set_float_format "{:.0f}"%string ;;;
  meanweightclass <- lift (loc means cls) ;;
  maxweight <- lift (loc maxgroups cls) ;;
  minweight <- lift (loc mingroups cls) ;;
  df <- get_frame ;;
  let aveweight := Series_mean (map mass_g df) in
  let avelat := Series_mean (map reclat df) in
  let avelong := Series_mean (map reclong df) in
  ret (mkClassValues aveweight avelat avelong meanweightclass count
         maxweight minweight).

Section SortName.

(** [str.upper] of the language, which the source calls on one-character
    strings. *)
Variable upper : string -> string.

(** [col.str[0]]: the first character; missing for a missing cell and for
    the empty string. *)
Definition str_get0 (c : option string) : option string :=
  match c with
  | Some (String a _) => Some (String a EmptyString)
  | _ => None
  end.

(** [col.str.upper()] *)
Definition str_upper (c : option string) : option string :=
  option_map upper c.

Definition first_letter_of (r : Row) : option string :=
  str_upper (str_get0 (name r)).

(** [df["firstLetter"] = col]: the column is added to the frame, or
    replaced when the frame has it. *)
Definition setitem_firstLetter (r : Row) : Row :=
  mkRow (id_ r) (name r) (recclass r) (mass_g r) (reclat r) (reclong r)
        (year r) (others r) (Some (first_letter_of r)).

Definition firstLetter_key (r : Row) : option string :=
  match firstLetter r with
  | Some c => c
  | None => None
  end.

(** [col.str]: the string accessor of a column. A column read from the
    file is an object column when some cell of it holds a string, and when
    the table has no row; a column with rows and no string in any of them
    is read as a float64 column of NaN, on which the accessor raises
    [AttributeError]. *)
Definition str_accessor (col : list (option string))
  : result (list (option string)) :=
  match col with
  | [] => Ok col
  | _ => if existsb isSome col then Ok col else Raise AttributeError
  end.

(** [sortName(meteordf)] *)
Definition sortName : Py (Series string (list (option string))) :=
  df <- get_frame ;;
  _ <- lift (str_accessor (map name df)) ;;
  set_frame (map setitem_firstLetter df) ;;;
  df <- get_frame ;;
  let grouped := groupby firstLetter_key df in
  ret (map (fun kv => (fst kv, map name (snd kv))) grouped).

(** Rows whose name starts with a character that upper-cases to [k]. *)
Definition starts_under (k : string) (r : Row) : bool :=
  match name r with
  | Some (String a _) => String.eqb (upper (String a EmptyString)) k
  | _ => false
  end.

(** A frame that differs from [df] at most in the column [firstLetter],
    which holds the upper-cased first character of each name. *)
Definition with_firstLetter (df df' : DataFrame) : Prop :=
  Forall2
    (fun r r' =>
       id_ r' = id_ r /\ name r' = name r /\ recclass r' = recclass r /\
       mass_g r' = mass_g r /\ reclat r' = reclat r /\
       reclong r' = reclong r /\ year r' = year r /\
       others r' = others r /\
       firstLetter r' = Some (first_letter_of r))
    df df'.

End SortName.

(** ASCII instance of [upper], for names written with ASCII letters. *)
Definition upper_char (a : ascii) : ascii :=
  let n := N_of_ascii a in
  if ((97 <=? n) && (n <=? 122))%N then ascii_of_N (n - 32) else a.

Fixpoint upper_ascii (s : string) : string :=
  match s with
  | EmptyString => EmptyString
  | String a s' => String (upper_char a) (upper_ascii s')
  end.

(** ** The aggregations in the words of the specification *)

(** Rows discovered in year [y]. *)
Definition in_year (y : Z) (r : Row) : bool :=
  match year r with
  | Some y' => (y' =? y)%Z
  | None => false
  end.



(** Number of records of year [y]. *)
Definition records_in_year (df : DataFrame) (y : Z) : nat :=
  List.length (filter (in_year y) df).

(** Number of records of year [y] that carry an identifier. *)
Definition ids_in_year (df : DataFrame) (y : Z) : Z :=
  Z.of_nat (List.length (filter (fun r => in_year y r && isSome (id_ r)) df)).

(** Sum of the values of a series. *)
Definition total {K} (s : Series K Z) : Z := fold_right Z.add 0%Z (map snd s).

(** Rows of classification [cls]. *)
Definition of_class (cls : string) (r : Row) : bool :=
  match recclass r with
  | Some c => String.eqb c cls
  | None => false
  end.

(** The filter of the specification's wording: a row is kept when it has
    a name, a classification, a mass, a latitude and a longitude. *)
Definition has_required_fields (r : Row) : bool :=
  isSome (name r) && isSome (recclass r)
  && notna (mass_g r) && notna (reclat r) && notna (reclong r).

(** A frame whose name column is a column of strings: some row has a
    name, or there is no row at all; and a frame with rows none of which
    has a name. *)
Definition named (df : DataFrame) : Prop :=
  df = [] \/ exists r, In r df /\ name r <> None.

Definition nameless (df : DataFrame) : Prop :=
  df <> [] /\ forall r, In r df -> name r = None.

(** The per-class part of the summary. *)
Record ClassSummary : Type := mkClassSummary {
  summary_count : Z;
  meanMass : float;
  maxMass : float;
  minMass : float
}.

(** The mean of a list of masses, as a float64 computation: the
    compensated sum of the masses, in the order of the list, over their
    number. *)
Definition list_mean (l : list float) : float :=
  (kahan_sum l / float_of_nat (List.length l))%float.

Definition list_max (l : list float) : float :=
  match l with [] => PrimFloat.nan | v :: vs => fold_left fmax vs v end.

Definition list_min (l : list float) : float :=
  match l with [] => PrimFloat.nan | v :: vs => fold_left fmin vs v end.

(** The summary in the specification's words: drop the rows that the
    filter [keep] rejects, take the rows of the class, and compute the
    count and the mean, largest and smallest mass over them; nothing for
    a class without rows. *)
Definition summarize_over (keep : Row -> bool) (df : DataFrame) (cls : string)
  : option ClassSummary :=
  match filter (of_class cls) (filter keep df) with
  | [] => None
  | q =>
      let masses := map mass_g q in
      Some (mkClassSummary (Z.of_nat (List.length q))
              (list_mean masses) (list_max masses) (list_min masses))
  end.

Definition class_summary (r : result ClassValues) : option ClassSummary :=
  match r with
  | Ok v => Some (mkClassSummary (count_ v) (meanweightclass v)
                    (maxweight v) (minweight v))
  | Raise _ => None
  end.

Definition class_rows (cls : string) (df : DataFrame) : DataFrame :=
  rows_with recclass cls (dropna df).

(** ** The scenario table of the specification *)

Definition Abee : Row :=
  mkRow (Some 1%Z) (Some "Abee"%string) (Some "L6"%string)
        107000%float 54.2%float (-113.0)%float (Some 1952%Z) [] None.

Definition Ourique : Row :=
  mkRow (Some 2%Z) (Some "Ourique"%string) (Some "L5"%string)
        PrimFloat.nan 37.6%float (-8.2)%float (Some 1927%Z) [] None.

Definition scenario : World := mkWorld [Abee; Ourique] None.

(** ** Further tables *)

Definition allende : Row :=
  mkRow (Some 2278%Z) (Some "Allende"%string) (Some "CV3"%string)
        2000000%float 26.96667%float (-105.31667)%float (Some 1970%Z) [] None.

Definition nogata : Row :=
  mkRow None (Some "Nogata"%string) (Some "L6"%string)
        472%float 33.725%float 130.75%float (Some 860%Z) [] None.

Definition two_years : World := mkWorld [allende; nogata] None.

Definition Abee_without_year : Row :=
  mkRow (Some 1%Z) (Some "Abee"%string) (Some "L6"%string)
        107000%float 54.2%float (-113.0)%float None [] None.

Definition unnamed : Row :=
  mkRow (Some 3%Z) None (Some "L6"%string)
        107000%float 54.2%float (-113.0)%float (Some 1952%Z) [] None.

Definition boulder : Row :=
  mkRow (Some 1%Z) (Some "Boulder"%string) (Some "L6"%string)
        1e16%float 10%float 20%float (Some 2000%Z) [] None.

Definition pebble (n : Z) : Row :=
  mkRow (Some n) (Some "Pebble"%string) (Some "L6"%string)
        1%float 10%float 20%float (Some 2000%Z) [] None.

Definition speck (n : Z) : Row :=
  mkRow (Some n) (Some "Speck"%string) (Some "L6"%string)
        0.1%float 10%float 20%float (Some 2000%Z) [] None.

Definition grain (n : Z) : Row :=
  mkRow (Some n) (Some "Grain"%string) (Some "H5"%string)
        0.7%float 10%float 20%float (Some 2000%Z) [] None.

Definition specks : World :=
  mkWorld [speck 1; speck 2; speck 3; grain 4; grain 5; grain 6] None.

(** * The pages and the navigation

    The page functions call the aggregations above and hand their
    results to the user-interface library. A run of the script is
    modelled as a computation over the state that outlives it (the page
    stored in the session, the display option of the data-frame library)
    and over the list of elements put on the screen, in order. The value
    a widget returns is an input of the run. *)

(** ** Columns as series *)

(** [col.dropna()] on a single column: the cells that hold a value. *)
Fixpoint series_dropna {A} (col : list (option A)) : list A :=
  match col with
  | [] => []
  | Some a :: col' => a :: series_dropna col'
  | None :: col' => series_dropna col'
  end.

Section KeyLists.
Context {K : Type} `{KeyOrder K}.

Fixpoint drop_duplicates_from (seen : list K) (l : list K) : list K :=
  match l with
  | [] => []
  | x :: l' =>
      if existsb (keqb x) seen then drop_duplicates_from seen l'
      else x :: drop_duplicates_from (x :: seen) l'
  end.

(** [col.drop_duplicates()]: the first occurrence of every value, in the
    order of the column. *)
Definition drop_duplicates (l : list K) : list K := drop_duplicates_from [] l.

Fixpoint insert_sorted (x : K) (l : list K) : list K :=
  match l with
  | [] => [x]
  | y :: l' =>
      match kcmp x y with
      | Gt => y :: insert_sorted x l'
      | _ => x :: l
      end
  end.

(** [col.sort_values()] and the built-in [sorted]: ascending order. *)
Definition sort_keys (l : list K) : list K := fold_right insert_sorted [] l.

(** [d[k] = v] on a [dict]: the value of an existing key is replaced in
    place, a new key goes last. *)
Fixpoint dict_set {V} (d : Series K V) (k : K) (v : V) : Series K V :=
  match d with
  | [] => [(k, v)]
  | (k', v') :: d' =>
      if keqb k k' then (k', v) :: d' else (k', v') :: dict_set d' k v
  end.
End KeyLists.

(** The years offered by the year page:
    [meteorsdf["year"].dropna().drop_duplicates().sort_values()]. *)
Definition year_options (df : DataFrame) : list Z :=
  sort_keys (drop_duplicates (series_dropna (map year df))).

(** The classifications offered by the classification page:
    [meteorsdf["recclass"].dropna().drop_duplicates()]. *)
Definition class_options (df : DataFrame) : list string :=
  drop_duplicates (series_dropna (map recclass df)).

(** ** Screen, session and files *)

(** An argument of [st.write]. *)
Inductive Value : Type :=
| VStr (s : string)
| VInt (n : Z)
| VFloat (x : float)
| VCell (c : option string)
| VSeries (s : Series Z Z).

(** An element put on the screen, with the data it is given. *)
Inductive Event : Type :=
| st_title (s : string)
| st_header (s : string)
| st_subheader (s : string)
| st_write (args : list Value)
| st_image (bytes : string)
| st_pydeck_chart (data : DataFrame)
| st_pyplot_pie (x : list Z) (labels : list Z) (title : string)
| st_pyplot_bar (x : list string) (height : list Z) (title : string)
| st_multiselect (label : string) (options : list Value)
| st_selectbox (label : string) (options : list Value)
| st_sidebar_selectbox (label : string) (options : list string)
| st_checkbox (label : string).

(** The two files the script opens; [None] for a file that does not
    exist. The data file is given as the frame [pd.read_csv] makes of
    it. *)
Record Files : Type := mkFiles {
  Meteorite_Landings_csv : option DataFrame;
  meteorite_png : option string
}.

Inductive failure : Type :=
| PyError (e : exn)
| FileNotFoundError.

Inductive outcome (A : Type) : Type :=
| Done (a : A)
| Failed (f : failure).
Arguments Done {A} a.
Arguments Failed {A} f.

(** What a run of the script reads and leaves behind:
    [st.session_state['page']] ([None] while the key is not set),
    [pd.options.display.float_format], and the screen. *)
Record Session : Type := mkSession {
  session_page : option string;
  pd_float_format : option string;
  screen : list Event
}.

Definition App (A : Type) : Type := Session -> outcome A * Session.

Definition app_ret {A} (a : A) : App A := fun s => (Done a, s).

Definition app_bind {A B} (c : App A) (k : A -> App B) : App B :=
  fun s =>
    match c s with
    | (Done a, s') => k a s'
    | (Failed f, s') => (Failed f, s')
    end.

Definition app_fail {A} (f : failure) : App A := fun s => (Failed f, s).

(** The element is appended to the screen. *)
Definition emit (e : Event) : App unit :=
  fun s => (Done tt,
            mkSession (session_page s) (pd_float_format s) (app (screen s) [e])).

Definition set_page (p : string) : App unit :=
  fun s => (Done tt, mkSession (Some p) (pd_float_format s) (screen s)).

(** [session_state['page']]: [KeyError] when the key is not set. *)
Definition get_page : App string :=
  fun s =>
    match session_page s with
    | Some p => (Done p, s)
    | None => (Failed (PyError KeyError), s)
    end.

Definition has_page : App bool :=
  fun s => (Done (isSome (session_page s)), s).

(** A call of an aggregation on the frame [df]: it runs with the current
    display option, and gives back its result and the frame as the call
    leaves it. *)
Definition run_py {A} (c : Py A) (df : DataFrame) : App (A * DataFrame) :=
  fun s =>
    match c (mkWorld df (pd_float_format s)) with
    | (Ok a, w) =>
        (Done (a, meteordf w),
         mkSession (session_page s) (float_format w) (screen s))
    | (Raise e, w) =>
        (Failed (PyError e),
         mkSession (session_page s) (float_format w) (screen s))
    end.

(** [d[k]] on a [dict]. *)
Definition dict_get {V} (d : Series string V) (k : string) : App V :=
  match lookup d k with
  | Some v => app_ret v
  | None => app_fail (PyError KeyError)
  end.

(** [open(path, 'rb').read()] and [pd.read_csv(path)]. *)
Definition read_file {A} (content : option A) : App A :=
  match content with
  | Some a => app_ret a
  | None => app_fail FileNotFoundError
  end.

Declare Scope app_scope.
Delimit Scope app_scope with app.
Notation "x <- c ;; k" := (app_bind c (fun x => k))
  (at level 61, c at next level, right associativity) : app_scope.
Notation "c ;;; k" := (app_bind c (fun _ => k))
  (at level 61, right associativity) : app_scope.

Open Scope app_scope.
Open Scope string_scope.

(** ** The page functions *)

(** [getData()] *)
Definition getData (files : Files) : App DataFrame :=
  read_file (Meteorite_Landings_csv files).

(** [homePage()] *)
Definition homePage (files : Files) : App unit :=
  emit (st_title "Meteorites That Hit Earth") ;;;
  emit (st_header "Welcome to my CS 230 Project") ;;;
  image <- read_file (meteorite_png files) ;;
  emit (st_image image) ;;;
  emit (st_write [VStr "Project by David Hammond"]) ;;;
  emit (st_write [VStr "Data collected by NASA"]).

(** [mapPage(meteordf)]; the layer is given [meteordf.dropna()], the
    other settings of the layer and of the deck are constants. *)
Definition mapPage (meteordf : DataFrame) : App unit :=
  let data := dropna meteordf in
  emit (st_title "Meteor Map") ;;;
  emit (st_subheader "Each dot on the map below is a location a meteorite was found. Hover your mouse over a dot to see more about that meteorite!") ;;;
  emit (st_pydeck_chart data).

(** [ax.pie(x, labels=...)] on a series of counts: the wedges are the
    counts over their sum, and the call raises [ValueError] when the
    counts add up to zero (every selected year without identifier, or no
    year selected). The chart reaches the screen with [st.pyplot]. *)
Definition ax_pie (x : Series Z Z) : App unit :=
  if (total x =? 0)%Z then app_fail (PyError ValueError) else app_ret tt.

(** [meteorYearsPage(meteorsdf)]; [yearsInput] is what the multiselect
    returns. *)
Definition meteorYearsPage (meteorsdf : DataFrame) (yearsInput : list Z)
  : App unit :=
  emit (st_title "Meteorites Sorted by Year") ;;;
  emit (st_subheader "On this page enter a set of years to learn how many meteorites were discovered during that year") ;;;
  emit (st_multiselect "Please select which years you would like to learn about"
          (map VInt (year_options meteorsdf))) ;;;
  res <- run_py (getMeteorsPerYear yearsInput) meteorsdf ;;
  let yearsOfInterest := fst res in
  ax_pie yearsOfInterest ;;;
  emit (st_pyplot_pie (map snd yearsOfInterest) (map fst yearsOfInterest)
          "Distribution by Year Selected") ;;;
  emit (st_write [VStr "Year, Number of meteorites discovered on Earth"]) ;;;
  emit (st_write [VSeries yearsOfInterest]).

(** [classificationPage(meteorsdf)]; [classInput] is what the selectbox
    returns. *)
Definition classificationPage (meteorsdf : DataFrame) (classInput : string)
  : App unit :=
  emit (st_title "Meteorites Sorted By Class") ;;;
  emit (st_subheader "On this page select a classification of meteorites to learn how they relate to the average meteorite") ;;;
  emit (st_selectbox "Classifications of meteorites"
          (map VStr (class_options meteorsdf))) ;;;
  res <- run_py (sortClassAndFindValues classInput) meteorsdf ;;
  let v := fst res in
  let classOfInterest := meanweightclass v in
  emit (st_write [VStr "Meteorite Class:"; VStr classInput]) ;;;
  emit (st_write [VStr "Average Mass:"; VFloat classOfInterest; VStr "grams"]) ;;;
  emit (st_write [VStr "Count:"; VInt (count_ v)]) ;;;
  emit (st_write [VStr "Heaviest Recorded Meteor From Class";
                  VFloat (maxweight v)]) ;;;
  emit (st_write [VStr "Lightest Recorded Meteor From Class";
                  VFloat (minweight v)]) ;;;
  if (aveweight v <? classOfInterest)%float then
    emit (st_write [VStr classInput;
                    VStr "on average have been heavier than the average meteorite which weighs";
                    VFloat (aveweight v); VStr "grams"])
  else if (classOfInterest <? aveweight v)%float then
    emit (st_write [VStr classInput;
                    VStr "on average have been less heavy than the average meteorite which weighs";
                    VFloat (aveweight v); VStr "grams"])
  else app_ret tt.

Definition alphabet : list string :=
  ["A"; "B"; "C"; "D"; "E"; "F"; "G"; "H"; "I"; "J"; "K"; "L"; "M"; "N";
   "O"; "P"; "Q"; "R"; "S"; "T"; "U"; "V"; "W"; "X"; "Y"; "Z"].

Definition len {A} (l : list A) : Z := Z.of_nat (List.length l).

(** The loop that writes the count of every selected letter and fills
    [lettercountsdict]. *)
Fixpoint count_letters (namesDict : Series string (list (option string)))
  (letterLst : list string) (lettercountsdict : Series string Z)
  : App (Series string Z) :=
  match letterLst with
  | [] => app_ret lettercountsdict
  | letter :: rest =>
      names <- dict_get namesDict letter ;;
      emit (st_write [VStr letter; VStr ":"; VInt (len names)]) ;;;
      names' <- dict_get namesDict letter ;;
      count_letters namesDict rest (dict_set lettercountsdict letter (len names'))
  end.

(** The loop that copies [lettercountsdict] in the order of
    [sortedKeys]. *)
Fixpoint copy_in_order (lettercountsdict : Series string Z)
  (sortedKeys : list string) (sortedlettercountsdict : Series string Z)
  : App (Series string Z) :=
  match sortedKeys with
  | [] => app_ret sortedlettercountsdict
  | key :: rest =>
      n <- dict_get lettercountsdict key ;;
      copy_in_order lettercountsdict rest (dict_set sortedlettercountsdict key n)
  end.

Fixpoint write_names (names : list (option string)) : App unit :=
  match names with
  | [] => app_ret tt
  | name :: rest => emit (st_write [VCell name]) ;;; write_names rest
  end.

(** The loop that lists the names under every selected letter. *)
Fixpoint list_names (namesDict : Series string (list (option string)))
  (letterLst : list string) : App unit :=
  match letterLst with
  | [] => app_ret tt
  | letter :: rest =>
      emit (st_write [VStr letter]) ;;;
      names <- dict_get namesDict letter ;;
      write_names names ;;;
      list_names namesDict rest
  end.

Section NamePage.
Variable upper : string -> string.

(** [namepage(meteordf)]; [letterLst] is what the multiselect returns and
    [alphabetical] what the checkbox returns. *)
Definition namepage (meteordf : DataFrame) (letterLst : list string)
  (alphabetical : bool) : App unit :=
  emit (st_title "Meteorites Sorted by Their Names") ;;;
  emit (st_subheader "On this page you can find the number of meteorites whose names start with a certain letter and a lits of those meteorites") ;;;
  res <- run_py (sortName upper) meteordf ;;
  let namesDict := fst res in
  emit (st_multiselect "Select a Letter" (map VStr alphabet)) ;;;
  lettercountsdict <- count_letters namesDict letterLst [] ;;
  emit (st_checkbox "Display bar chart alphabetically?") ;;;
  sortedlettercountsdict <-
    (if alphabetical
     then copy_in_order lettercountsdict (sort_keys (map fst lettercountsdict)) []
     else app_ret lettercountsdict) ;;
  emit (st_pyplot_bar (map fst sortedlettercountsdict)
          (map snd sortedlettercountsdict)
          "Number of Meteorites per Letter") ;;;
  list_names namesDict letterLst.

(** The values the widgets return during a run. *)
Record Inputs : Type := mkInputs {
  navigation : string;
  yearsInput_ : list Z;
  classInput_ : string;
  letterLst_ : list string;
  alphabetical_ : bool
}.

Definition menu : list string :=
  ["Home"; "Map"; "Year"; "Classification"; "Names"].

(** [nav()]; [nav_choice] is what the sidebar selectbox returns. The
    session state is shared, the function returns the menu. *)
Definition nav (nav_choice : string) : App (list string) :=
  present <- has_page ;;
  (if present then app_ret tt else set_page "home") ;;;
  emit (st_sidebar_selectbox "Select a page" menu) ;;;
  (if String.eqb nav_choice "Home" then set_page "Home"
   else if String.eqb nav_choice "Year" then set_page "Year"
   else if String.eqb nav_choice "Map" then set_page "Map"
   else if String.eqb nav_choice "Classification" then set_page "Classification"
   else if String.eqb nav_choice "Names" then set_page "Names"
   else app_ret tt) ;;;
  app_ret menu.

(** [main()] *)
Definition main (files : Files) (inp : Inputs) : App unit :=
  menu <- nav (navigation inp) ;;
  meteordf <- getData files ;;
  page <- get_page ;;
  if String.eqb page "Home" || negb (existsb (String.eqb page) menu)
  then homePage files
  else
    page <- get_page ;;
    if String.eqb page "Year" then meteorYearsPage meteordf (yearsInput_ inp)
    else
      page <- get_page ;;
      if String.eqb page "Map" then mapPage meteordf
      else
        page <- get_page ;;
        if String.eqb page "Classification"
        then classificationPage meteordf (classInput_ inp)
        else
          page <- get_page ;;
          if String.eqb page "Names"
          then namepage meteordf (letterLst_ inp) (alphabetical_ inp)
          else app_ret tt.

End NamePage.

Close Scope string_scope.
Close Scope app_scope.

(** ** Runs on the scenario table *)

Definition scenario_files : Files :=
  mkFiles (Some [Abee; Ourique]) (Some "PNG"%string).

Definition no_files : Files := mkFiles None None.

(** The widgets of a run: the sidebar choice [page], the year 1952, the
    class L5, the letters A and B, the checkbox not ticked. *)
Definition scenario_inputs (page : string) : Inputs :=
  mkInputs page [1952%Z] "L5"%string ["A"; "B"]%string false.

(** ** Words for the statements about the pages *)

(** The session after the elements [l] were put on the screen. *)
Definition shown (s : Session) (l : list Event) : Session :=
  mkSession (session_page s) (pd_float_format s) (screen s ++ l).

(** The value of a key of a [dict] that holds it. *)
Definition value_of {V} (dflt : V) (d : Series string V) (k : string) : V :=
  match lookup d k with
  | Some v => v
  | None => dflt
  end.

(** The names filed under the letter [k]: the names, in row order, of
    the rows whose name starts with a character that upper-cases to [k]. *)
Definition names_under (upper : string -> string) (df : DataFrame) (k : string)
  : list (option string) :=
  map name (filter (starts_under upper k) df).

(** What the name page writes for a letter: its count line, and its
    listing. *)
Definition count_line (upper : string -> string) (df : DataFrame) (k : string)
  : Event :=
  st_write [VStr k; VStr ":"%string; VInt (len (names_under upper df k))].

Definition listing (upper : string -> string) (df : DataFrame) (k : string)
  : list Event :=
  st_write [VStr k] :: map (fun n => st_write [VCell n]) (names_under upper df k).

(** * Properties *)

(** ** Keys *)

Section KeyFacts.
Context {K : Type} `{KeyOrder K}.

Lemma keqb_eq (a b : K) : keqb a b = true <-> a = b.
Proof.
  unfold keqb. rewrite <- kcmp_eq.
  destruct (kcmp a b); split; intro; congruence.
Qed.

Lemma keqb_refl (a : K) : keqb a a = true.
Proof. now apply keqb_eq. Qed.

Lemma keqb_neq (a b : K) : keqb a b = false <-> a <> b.
Proof.
  rewrite <- keqb_eq. destruct (keqb a b); split; intro; congruence.
Qed.

Lemma klt_irrefl (a : K) : ~ klt a a.
Proof.
  unfold klt. intro Hlt.
  assert (Heq : kcmp a a = Eq) by now apply kcmp_eq.
  congruence.
Qed.

Lemma klt_trans (a b c : K) : klt a b -> klt b c -> klt a c.
Proof. apply kcmp_trans. Qed.

Lemma kcmp_gt_lt (a b : K) : kcmp a b = Gt -> klt b a.
Proof.
  unfold klt. intro Hgt. rewrite (kcmp_antisym a b), Hgt. reflexivity.
Qed.

End KeyFacts.

(** ** Lookup in a sorted index *)

Section LookupFacts.
Context {K V : Type} `{KeyOrder K}.

Lemma lookup_not_in (s : Series K V) (k : K) :
  ~ In k (map fst s) -> lookup s k = None.
Proof.
  induction s as [|[k' v] s IH]; simpl; intro Hnin; [reflexivity|].
  destruct (keqb k k') eqn:E.
  - apply keqb_eq in E. subst. exfalso. apply Hnin. now left.
  - apply IH. intro Hin. apply Hnin. now right.
Qed.

Lemma lookup_in (s : Series K V) (k : K) (v : V) :
  lookup s k = Some v -> In (k, v) s.
Proof.
  induction s as [|[k' v'] s IH]; simpl; [discriminate|].
  destruct (keqb k k') eqn:E.
  - apply keqb_eq in E. intro Hv. injection Hv as ->. subst. now left.
  - intro Hv. right. now apply IH.
Qed.

Lemma sorted_keys_below (k : K) (s : Series K V) :
  Forall (klt k) (map fst s) -> ~ In k (map fst s).
Proof.
  rewrite Forall_forall. intros Hall Hin.
  exact (klt_irrefl _ (Hall _ Hin)).
Qed.

Lemma in_lookup (s : Series K V) (k : K) (v : V) :
  sorted_keys s -> In (k, v) s -> lookup s k = Some v.
Proof.
  unfold sorted_keys.
  induction s as [|[k' v'] s IH]; simpl; intros Hs Hin; [contradiction|].
  apply StronglySorted_inv in Hs. destruct Hs as [Hs Hall].
  destruct Hin as [Heq | Hin].
  - injection Heq as -> ->. now rewrite keqb_refl.
  - destruct (keqb k k') eqn:E.
    + apply keqb_eq in E. subst k'. exfalso.
      apply (sorted_keys_below k s Hall). apply (in_map fst) in Hin. exact Hin.
    + now apply IH.
Qed.

Lemma sorted_keys_NoDup (s : Series K V) :
  sorted_keys s -> NoDup (map fst s).
Proof.
  unfold sorted_keys.
  induction (map fst s) as [|k ks IH]; intro Hs; constructor.
  - apply StronglySorted_inv in Hs. destruct Hs as [_ Hall].
    rewrite Forall_forall in Hall. intro Hin.
    exact (klt_irrefl _ (Hall _ Hin)).
  - apply IH. now apply StronglySorted_inv in Hs.
Qed.

Lemma lookup_map_values {W} (f : V -> W) (s : Series K V) (k : K) :
  lookup (map (fun kv => (fst kv, f (snd kv))) s) k = option_map f (lookup s k).
Proof.
  induction s as [|[k' v] s IH]; simpl; [reflexivity|].
  destruct (keqb k k'); [reflexivity | exact IH].
Qed.

Lemma map_fst_map_values {W} (f : V -> W) (s : Series K V) :
  map fst (map (fun kv => (fst kv, f (snd kv))) s) = map fst s.
Proof.
  rewrite map_map. reflexivity.
Qed.

End LookupFacts.

(** ** The grouping pass *)

Section GroupByFacts.
Context {K A : Type} `{KeyOrder K}.
Implicit Types (gs : Series K (list A)) (col : A -> option K).

Lemma keqb_sym (a b : K) : keqb a b = keqb b a.
Proof.
  destruct (keqb a b) eqn:E1, (keqb b a) eqn:E2; try reflexivity.
  - apply keqb_eq in E1. apply keqb_neq in E2. congruence.
  - apply keqb_eq in E2. apply keqb_neq in E1. congruence.
Qed.

Lemma add_to_group_keys k r gs k' :
  In k' (map fst (add_to_group k r gs)) -> k' = k \/ In k' (map fst gs).
Proof.
  induction gs as [|[k1 rs] gs IH]; simpl.
  - intros [<-|[]]. now left.
  - destruct (kcmp k k1) eqn:E; simpl.
    + intros [<-|Hin]; right; [now left | now right].
    + intros [<-|[<-|Hin]]; [now left | right; now left | right; now right].
    + intros [<-|Hin]; [right; now left|].
      destruct (IH Hin) as [->|Hin']; [now left | right; now right].
Qed.

Lemma add_to_group_sorted k r gs :
  sorted_keys gs -> sorted_keys (add_to_group k r gs).
Proof.
  unfold sorted_keys.
  induction gs as [|[k1 rs] gs IH]; simpl; intro Hs.
  - constructor; constructor.
  - destruct (kcmp k k1) eqn:E; simpl.
    + exact Hs.
    + constructor; [exact Hs|].
      constructor; [exact E|].
      apply StronglySorted_inv in Hs. destruct Hs as [_ Hall].
      eapply Forall_impl; [|exact Hall].
      intros a Ha. eapply klt_trans; eassumption.
    + apply StronglySorted_inv in Hs. destruct Hs as [Hs Hall].
      constructor; [now apply IH|].
      rewrite Forall_forall in *. intros k' Hin.
      apply add_to_group_keys in Hin. destruct Hin as [->|Hin].
      * now apply kcmp_gt_lt.
      * now apply Hall.
Qed.

Lemma lookup_add_to_group k r gs k' :
  sorted_keys gs ->
  lookup (add_to_group k r gs) k' =
  if keqb k' k
  then Some (match lookup gs k with Some rs => rs ++ [r] | None => [r] end)
  else lookup gs k'.
Proof.
  unfold sorted_keys.
  induction gs as [|[k1 rs] gs IH]; simpl; intro Hs.
  - destruct (keqb k' k); reflexivity.
  - apply StronglySorted_inv in Hs. destruct Hs as [Hs Hall].
    destruct (kcmp k k1) eqn:E; simpl.
    + assert (Hk : keqb k k1 = true) by (unfold keqb; now rewrite E).
      rewrite Hk. apply keqb_eq in Hk. subst k1.
      destruct (keqb k' k); reflexivity.
    + assert (Hk : keqb k k1 = false) by (unfold keqb; now rewrite E).
      rewrite Hk.
      assert (Hnone : lookup gs k = None).
      { apply lookup_not_in. apply sorted_keys_below.
        eapply Forall_impl; [|exact Hall].
        intros a Ha. eapply klt_trans; eassumption. }
      rewrite Hnone. reflexivity.
    + assert (Hk : keqb k k1 = false) by (unfold keqb; now rewrite E).
      rewrite Hk, (IH Hs).
      destruct (keqb k' k1) eqn:E1; [|reflexivity].
      apply keqb_eq in E1. subst k'.
      rewrite keqb_sym, Hk. reflexivity.
Qed.

Lemma rows_with_snoc col k l r :
  rows_with col k (l ++ [r]) =
  rows_with col k l ++ (if has_key col k r then [r] else []).
Proof.
  unfold rows_with. rewrite filter_app. simpl.
  destruct (has_key col k r); reflexivity.
Qed.

Lemma group_step_spec col gs l0 r :
  sorted_keys gs ->
  (forall k, lookup gs k = nonempty (rows_with col k l0)) ->
  sorted_keys (group_step col gs r) /\
  forall k, lookup (group_step col gs r) k = nonempty (rows_with col k (l0 ++ [r])).
Proof.
  intros Hs Hl. unfold group_step.
  destruct (col r) as [k0|] eqn:Ek.
  - split; [now apply add_to_group_sorted|].
    intro k. rewrite lookup_add_to_group by exact Hs.
    rewrite rows_with_snoc. unfold has_key. rewrite Ek, (keqb_sym k0 k).
    destruct (keqb k k0) eqn:E.
    + apply keqb_eq in E. subst k0. rewrite Hl.
      destruct (rows_with col k l0); reflexivity.
    + rewrite app_nil_r. apply Hl.
  - split; [exact Hs|].
    intro k. rewrite rows_with_snoc. unfold has_key. rewrite Ek, app_nil_r.
    apply Hl.
Qed.

Lemma fold_group_spec col l : forall gs l0,
  sorted_keys gs ->
  (forall k, lookup gs k = nonempty (rows_with col k l0)) ->
  sorted_keys (fold_left (group_step col) l gs) /\
  forall k, lookup (fold_left (group_step col) l gs) k
            = nonempty (rows_with col k (l0 ++ l)).
Proof.
  induction l as [|r l IH]; intros gs l0 Hs Hl; simpl.
  - rewrite app_nil_r. now split.
  - destruct (group_step_spec col gs l0 r Hs Hl) as [Hs' Hl'].
    destruct (IH _ _ Hs' Hl') as [Hs'' Hl''].
    split; [exact Hs''|].
    intro k. rewrite Hl'', <- app_assoc. reflexivity.
Qed.

(** The groups come in strictly ascending key order. *)
Lemma groupby_sorted col (df : list A) : sorted_keys (groupby col df).
Proof.
  unfold groupby.
  apply (fold_group_spec col df [] []).
  - constructor.
  - reflexivity.
Qed.

(** The group of a key holds the rows with that key, in frame order; a
    key without rows has no group. *)
Lemma groupby_lookup col (df : list A) (k : K) :
  lookup (groupby col df) k = nonempty (rows_with col k df).
Proof.
  unfold groupby.
  apply (fold_group_spec col df [] []).
  - constructor.
  - reflexivity.
Qed.

Lemma groupby_in col (df : list A) (k : K) (g : list A) :
  In (k, g) (groupby col df) -> g = rows_with col k df /\ g <> [].
Proof.
  intro Hin. apply in_lookup in Hin; [|apply groupby_sorted].
  rewrite groupby_lookup in Hin.
  destruct (rows_with col k df) eqn:E; simpl in Hin; [discriminate|].
  injection Hin as <-. split; [reflexivity | discriminate].
Qed.

Lemma add_to_group_perm k r gs :
  Permutation (List.concat (map snd (add_to_group k r gs)))
              (List.concat (map snd gs) ++ [r]).
Proof.
  induction gs as [|[k1 rs] gs IH]; simpl.
  - reflexivity.
  - destruct (kcmp k k1); simpl.
    + rewrite <- !app_assoc. apply Permutation_app_head.
      apply Permutation_app_comm.
    + change (r :: rs ++ List.concat (map snd gs))
        with ([r] ++ (rs ++ List.concat (map snd gs))).
      apply Permutation_app_comm.
    + rewrite <- app_assoc. apply Permutation_app_head. exact IH.
Qed.

Lemma fold_group_perm col l : forall gs,
  Permutation (List.concat (map snd (fold_left (group_step col) l gs)))
              (List.concat (map snd gs) ++ filter (fun r => isSome (col r)) l).
Proof.
  induction l as [|r l IH]; intro gs; simpl.
  - now rewrite app_nil_r.
  - rewrite IH. unfold group_step.
    destruct (col r); simpl.
    + rewrite add_to_group_perm, <- app_assoc. reflexivity.
    + reflexivity.
Qed.

Lemma lookup_agg {V} (f : list A -> V) gs (k : K) :
  lookup (agg f gs) k = option_map f (lookup gs k).
Proof. apply lookup_map_values. Qed.

(** Grouping is a partition of the rows that have a key. *)
Lemma groupby_perm col (df : list A) :
  Permutation (List.concat (map snd (groupby col df)))
              (filter (fun r => isSome (col r)) df).
Proof.
  unfold groupby. now rewrite fold_group_perm.
Qed.

End GroupByFacts.

(** ** Lists and label lists *)

Lemma Permutation_filter_compat {A} (f : A -> bool) (l l' : list A) :
  Permutation l l' -> Permutation (filter f l) (filter f l').
Proof.
  induction 1 as [|x l l' _ IH|x y l|l l' l'' _ IH1 _ IH2]; simpl.
  - constructor.
  - destruct (f x); [now constructor | exact IH].
  - destruct (f x), (f y); try reflexivity. constructor.
  - now transitivity (filter f l').
Qed.

Lemma filter_filter_andb {A} (p q : A -> bool) (l : list A) :
  filter q (filter p l) = filter (fun x => p x && q x) l.
Proof.
  induction l as [|x l IH]; simpl; [reflexivity|].
  destruct (p x); simpl; [|exact IH].
  destruct (q x); now rewrite IH.
Qed.

Lemma filter_map_comm {A B} (f : A -> B) (q : B -> bool) (l : list A) :
  filter q (map f l) = map f (filter (fun x => q (f x)) l).
Proof.
  induction l as [|x l IH]; simpl; [reflexivity|].
  destruct (q (f x)); simpl; now rewrite IH.
Qed.

Lemma filter_nil_iff {A} (p : A -> bool) (l : list A) :
  filter p l = [] <-> forall x, In x l -> p x = false.
Proof.
  induction l as [|x l IH]; simpl.
  - split; [intros _ y [] | reflexivity].
  - destruct (p x) eqn:E; split.
    + discriminate.
    + intro Hall. specialize (Hall x (or_introl eq_refl)). congruence.
    + intros Hnil y [<-|Hin]; [exact E | now apply IH].
    + intro Hall. apply IH. intros y Hin. apply Hall. now right.
Qed.

Section LocList.
Context {K V : Type} `{KeyOrder K}.

Lemma loc_list_ok (s : Series K V) (f : K -> V) (labels : list K) :
  (forall k, In k labels -> lookup s k = Some (f k)) ->
  loc_list s labels = Ok (map (fun k => (k, f k)) labels).
Proof.
  induction labels as [|k ks IH]; simpl; intro Hall; [reflexivity|].
  rewrite (Hall k (or_introl eq_refl)), IH; [reflexivity|].
  intros k' Hin. apply Hall. now right.
Qed.



End LocList.

(** ** Year counts *)

Lemma has_key_year (y : Z) (r : Row) : has_key year y r = in_year y r.
Proof.
  unfold has_key, in_year. destruct (year r) as [y'|]; [|reflexivity].
  unfold keqb. simpl. symmetry. apply Z.eqb_compare.
Qed.

Lemma rows_with_year (y : Z) (df : DataFrame) :
  rows_with year y df = filter (in_year y) df.
Proof.
  unfold rows_with. apply filter_ext. intro r. apply has_key_year.
Qed.

Lemma insert_by_year_perm (r : Row) (df : DataFrame) :
  Permutation (insert_by_year r df) (r :: df).
Proof.
  induction df as [|r' df IH]; simpl; [reflexivity|].
  destruct (year_le (year r) (year r')); [reflexivity|].
  rewrite IH. constructor.
Qed.

Lemma sort_values_year_perm (df : DataFrame) :
  Permutation (sort_values_year df) df.
Proof.
  induction df as [|r df IH]; simpl; [reflexivity|].
  rewrite insert_by_year_perm. now constructor.
Qed.

Lemma count_ids_in_year (df : DataFrame) (y : Z) :
  count (map id_ (rows_with year y (sort_values_year df))) = ids_in_year df y.
Proof.
  unfold count, ids_in_year. f_equal.
  rewrite rows_with_year, filter_map_comm, length_map, filter_filter_andb.
  apply Permutation_length, Permutation_filter_compat, sort_values_year_perm.
Qed.

(** The per-year counts that [getMeteorsPerYear] indexes: a year is a
    label exactly when some record has it. *)
Lemma yearsCount_lookup (df : DataFrame) (y : Z) :
  lookup (agg (fun g => count (map id_ g)) (groupby year (sort_values_year df))) y
  = if (records_in_year df y =? 0)%nat then None else Some (ids_in_year df y).
Proof.
  rewrite lookup_agg, groupby_lookup.
  assert (Hlen : List.length (rows_with year y (sort_values_year df))
                 = records_in_year df y).
  { unfold records_in_year. rewrite rows_with_year.
    apply Permutation_length, Permutation_filter_compat, sort_values_year_perm. }
  pose proof (count_ids_in_year df y) as Hc.
  destruct (rows_with year y (sort_values_year df)) as [|r g] eqn:E;
    simpl in Hlen; rewrite <- Hlen; [reflexivity|].
  unfold nonempty, option_map. rewrite Hc. reflexivity.
Qed.

Lemma records_in_year_pos (df : DataFrame) (y : Z) :
  (exists r, In r df /\ year r = Some y) <-> records_in_year df y <> 0%nat.
Proof.
  unfold records_in_year. split.
  - intros [r [Hin Hy]] Hz. apply length_zero_iff_nil in Hz.
    rewrite filter_nil_iff in Hz. specialize (Hz r Hin).
    unfold in_year in Hz. rewrite Hy, Z.eqb_refl in Hz. discriminate.
  - intro Hnz. destruct (filter (in_year y) df) as [|r g] eqn:E; [now elim Hnz|].
    assert (Hin : In r (filter (in_year y) df)) by (rewrite E; now left).
    apply filter_In in Hin. destruct Hin as [Hin Hy].
    exists r. split; [exact Hin|].
    unfold in_year in Hy. destruct (year r) as [y'|]; [|discriminate].
    apply Z.eqb_eq in Hy. now subst.
Qed.

Lemma getMeteorsPerYear_run (years : list Z) (w : World) :
  getMeteorsPerYear years w =
  (loc_list (agg (fun g => count (map id_ g))
               (groupby year (sort_values_year (meteordf w)))) years, w).
Proof. reflexivity. Qed.

(** C2, as stated, fails: on a table with one record of 1970 and one
    record of 860 (the latter without identifier), the request
    [1970, 860] (the default of the parameter) is answered in the order
    of the request, not in ascending year order, and the count of 860 is
    the number of identifiers, 0, not the number of records, 1. *)
Lemma getMeteorsPerYear_request_order_example :
  (forall y, In y default_years ->
             exists r, In r (meteordf two_years) /\ year r = Some y) /\
  fst (getMeteorsPerYear default_years two_years)
    = Ok [(1970, 1); (860, 0)]%Z /\
  ~ Sorted Z.le (map fst [(1970, 1); (860, 0)]%Z) /\
  records_in_year (meteordf two_years) 860 = 1%nat.
Proof.
  split; [|split; [|split]].
  - intros y [<-|[<-|[]]].
    + exists allende. split; [now left | reflexivity].
    + exists nogata. split; [right; now left | reflexivity].
  - reflexivity.
  - intro Hs. simpl in Hs. apply Sorted_inv in Hs. destruct Hs as [_ Hhd].
    apply HdRel_inv in Hhd. now apply Hhd.
  - reflexivity.
Qed.

(** When every requested year occurs, every label is found. *)
Lemma loc_list_years_present (df : DataFrame) (years : list Z) :
  (forall y, In y years -> exists r, In r df /\ year r = Some y) ->
  loc_list (agg (fun g => count (map id_ g)) (groupby year (sort_values_year df)))
           years
  = Ok (map (fun y => (y, ids_in_year df y)) years).
Proof.
  intro Hocc. apply loc_list_ok. intros y Hin.
  rewrite yearsCount_lookup.
  apply Hocc, records_in_year_pos in Hin.
  destruct (records_in_year df y); [now elim Hin | reflexivity].
Qed.

(** C2, amended: when every requested year occurs in the table, the
    result has one entry per requested year, in the order of the request,
    and the value at a year is the number of records of that year that
    carry an identifier. *)
Theorem getMeteorsPerYear_counts (w : World) (years : list Z) :
  (forall y, In y years -> exists r, In r (meteordf w) /\ year r = Some y) ->
  fst (getMeteorsPerYear years w)
  = Ok (map (fun y => (y, ids_in_year (meteordf w) y)) years).
Proof.
  intro Hocc. rewrite getMeteorsPerYear_run. simpl.
  now apply loc_list_years_present.
Qed.

Lemma getMeteorsPerYear_counts_witness :
  fst (getMeteorsPerYear [1927; 1952]%Z scenario)
  = Ok (map (fun y => (y, ids_in_year (meteordf scenario) y)) [1927; 1952]%Z).
Proof.
  apply getMeteorsPerYear_counts.
  intros y [<-|[<-|[]]].
  - exists Ourique. split; [right; now left | reflexivity].
  - exists Abee. split; [now left | reflexivity].
Defined.



Lemma ids_le_records (df : DataFrame) (y : Z) :
  (0 <= ids_in_year df y <= Z.of_nat (records_in_year df y))%Z.
Proof.
  unfold ids_in_year, records_in_year. split; [lia|].
  apply Nat2Z.inj_le.
  rewrite <- filter_filter_andb. apply filter_length_le.
Qed.

Lemma sum_indicator_NoDup (r : Row) (ys : list Z) :
  NoDup ys ->
  (list_sum (map (fun y => if in_year y r then 1 else 0) ys) <= 1)%nat.
Proof.
  induction 1 as [|y ys Hnin Hnd IH]; simpl; [lia|].
  destruct (in_year y r) eqn:E; [|exact IH].
  assert (Hz : list_sum (map (fun y0 => if in_year y0 r then 1 else 0) ys) = 0%nat).
  { clear IH Hnd. induction ys as [|y' ys IH]; simpl; [reflexivity|].
    assert (Hy' : in_year y' r = false).
    { destruct (in_year y' r) eqn:E'; [|reflexivity].
      unfold in_year in E, E'. destruct (year r) as [yr|]; [|discriminate].
      apply Z.eqb_eq in E, E'. subst. elim Hnin. now left. }
    rewrite Hy'. apply IH. intro Hin. apply Hnin. now right. }
  lia.
Qed.

Lemma sum_records_le (df : DataFrame) (ys : list Z) :
  NoDup ys ->
  (list_sum (map (records_in_year df) ys) <= List.length df)%nat.
Proof.
  intro Hnd. induction df as [|r df IH].
  - unfold records_in_year. simpl.
    induction ys as [|y ys IHy]; simpl; [lia|].
    apply IHy. now inversion Hnd.
  - assert (Hsplit : list_sum (map (records_in_year (r :: df)) ys)
                     = (list_sum (map (fun y => if in_year y r then 1 else 0) ys)
                        + list_sum (map (records_in_year df) ys))%nat).
    { clear. induction ys as [|y ys IHy]; simpl; [reflexivity|].
      rewrite IHy.
      assert (Hy : records_in_year (r :: df) y
                   = ((if in_year y r then 1 else 0) + records_in_year df y)%nat).
      { unfold records_in_year. simpl. now destruct (in_year y r). }
      rewrite Hy. lia. }
    rewrite Hsplit. pose proof (sum_indicator_NoDup r ys Hnd). simpl. lia.
Qed.

Lemma total_ids_le (df : DataFrame) (ys : list Z) :
  (total (map (fun y => (y, ids_in_year df y)) ys)
   <= Z.of_nat (list_sum (map (records_in_year df) ys)))%Z.
Proof.
  unfold total. induction ys as [|y ys IH]; simpl; [lia|].
  pose proof (ids_le_records df y). simpl in IH. lia.
Qed.

(** C9: for a set of years (a list without repetition) that all occur in
    the table, every count of the result is non-negative and the counts
    add up to at most the number of rows. *)
Theorem getMeteorsPerYear_counts_bounded (w : World) (years : list Z) :
  NoDup years ->
  (forall y, In y years -> exists r, In r (meteordf w) /\ year r = Some y) ->
  exists res,
    fst (getMeteorsPerYear years w) = Ok res /\
    Forall (fun e => (0 <= snd e)%Z) res /\
    (total res <= Z.of_nat (List.length (meteordf w)))%Z.
Proof.
  intros Hnd Hocc. eexists.
  split; [rewrite getMeteorsPerYear_run; now apply loc_list_years_present|].
  split.
  - rewrite Forall_forall. intros e Hin. apply in_map_iff in Hin.
    destruct Hin as [y [<- _]]. simpl. apply ids_le_records.
  - pose proof (total_ids_le (meteordf w) years).
    pose proof (sum_records_le (meteordf w) years Hnd). lia.
Qed.

Lemma getMeteorsPerYear_counts_bounded_witness :
  exists res,
    fst (getMeteorsPerYear [1952; 1927]%Z scenario) = Ok res /\
    Forall (fun e => (0 <= snd e)%Z) res /\
    (total res <= Z.of_nat (List.length (meteordf scenario)))%Z.
Proof.
  apply getMeteorsPerYear_counts_bounded.
  - repeat constructor; simpl; intuition discriminate.
  - intros y [<-|[<-|[]]].
    + exists Abee. split; [now left | reflexivity].
    + exists Ourique. split; [right; now left | reflexivity].
Defined.

(** A year requested twice is answered twice: repetitions in the request
    are what the bound on the sum excludes. *)
Lemma getMeteorsPerYear_repeated_request :
  fst (getMeteorsPerYear [1952; 1952]%Z (mkWorld [Abee] None))
  = Ok [(1952, 1); (1952, 1)]%Z.
Proof. reflexivity. Qed.

(** ** Sums and means of float columns *)

(** The depth bound of the pairwise sum is never reached: any two bounds
    that are at least the length of the array give the same sum. *)
Lemma pairwise_sum_rec_fuel (f1 : nat) : forall (f2 : nat) (a : list float),
  (List.length a <= f1)%nat -> (List.length a <= f2)%nat ->
  pairwise_sum_rec f1 a = pairwise_sum_rec f2 a.
Proof.
  induction f1 as [|f1 IH]; intros f2 a H1 H2.
  - destruct a; [|simpl in H1; lia]. now destruct f2.
  - destruct f2 as [|f2].
    + destruct a; [reflexivity | simpl in H2; lia].
    + cbn [pairwise_sum_rec].
      destruct (Nat.leb_spec (List.length a) 128) as [_ | Hlong]; [reflexivity|].
      set (n := List.length a) in *.
      set (n2 := (n / 2 - (n / 2) mod 8)%nat).
      assert (Hn2 : (0 < n2 < n)%nat).
      { unfold n2.
        pose proof (Nat.mod_upper_bound (n / 2) 8 ltac:(discriminate)).
        pose proof (Nat.Div0.mod_le (n / 2) 8).
        pose proof (Nat.Div0.div_lt_upper_bound n 2 n).
        assert (64 <= n / 2)%nat by (apply (Nat.div_le_lower_bound n 2 64); lia).
        lia. }
      rewrite (IH f2 (firstn n2 a)), (IH f2 (skipn n2 a));
        rewrite ?length_firstn, ?length_skipn; try reflexivity; fold n; lia.
Qed.

Lemma pairwise_sum_cut (a : list float) :
  (128 < List.length a)%nat ->
  let n2 := (List.length a / 2 - (List.length a / 2) mod 8)%nat in
  pairwise_sum a
  = (pairwise_sum (firstn n2 a) + pairwise_sum (skipn n2 a))%float.
Proof.
  intros Hlong n2. unfold pairwise_sum.
  destruct (List.length a) as [|f] eqn:En; [lia|].
  cbn [pairwise_sum_rec]. rewrite En.
  destruct (Nat.leb_spec (S f) 128) as [Hle | _]; [lia|].
  fold n2.
  assert (Hn2 : (0 < n2 < S f)%nat).
  { unfold n2.
    pose proof (Nat.mod_upper_bound (S f / 2) 8 ltac:(discriminate)).
    pose proof (Nat.Div0.mod_le (S f / 2) 8).
    pose proof (Nat.Div0.div_lt_upper_bound (S f) 2 (S f)).
    assert (64 <= S f / 2)%nat by (apply (Nat.div_le_lower_bound (S f) 2 64); lia).
    lia. }
  f_equal; apply pairwise_sum_rec_fuel;
    rewrite ?length_firstn, ?length_skipn; lia.
Qed.

(** A grouped mean and the mean of a series are different computations:
    over the masses 1e16, 1, 1 the compensated sum keeps the two units
    that the plain sum loses; over nine cells the eight running sums of
    the series keep them as well. A missing cell does not count. *)
Lemma means_examples :
  group_mean [1e16; 1; 1]%float = 3333333333333334%float /\
  Series_mean [1e16; 1; 1]%float = 3333333333333333.5%float /\
  Series_mean [1e16; 1; 1; 1; 1; 1; 1; 1; 1]%float = 1111111111111112%float /\
  Series_mean [107000; PrimFloat.nan]%float = 107000%float /\
  PrimFloat.is_nan (Series_mean [PrimFloat.nan]) = true.
Proof. repeat split. Qed.

(** ** Class summary *)

Lemma has_key_recclass (cls : string) (r : Row) :
  has_key recclass cls r = of_class cls r.
Proof.
  unfold has_key, of_class. destruct (recclass r) as [c|]; [|reflexivity].
  unfold keqb. simpl.
  destruct (String.eqb_spec c cls) as [->|Hne].
  - assert (Heq : String.compare cls cls = Eq)
      by now apply String_as_OT.cmp_eq.
    now rewrite Heq.
  - destruct (String.compare c cls) eqn:E; try reflexivity.
    apply String.compare_eq_iff in E. contradiction.
Qed.

Lemma class_rows_filter (cls : string) (df : DataFrame) :
  class_rows cls df = filter (of_class cls) (filter complete df).
Proof.
  unfold class_rows, rows_with, dropna.
  apply filter_ext. intro r. apply has_key_recclass.
Qed.

Lemma sortClassAndFindValues_run (cls : string) (w : World) :
  sortClassAndFindValues cls w =
  match class_rows cls (meteordf w) with
  | [] => (Raise KeyError, w)
  | r :: g' =>
      let g := r :: g' in
      let df := meteordf w in
      (Ok (mkClassValues (Series_mean (map mass_g df))
             (Series_mean (map reclat df)) (Series_mean (map reclong df))
             (group_mean (map mass_g g))
             (count (map name g)) (col_max (map mass_g g))
             (col_min (map mass_g g))),
       mkWorld df (Some "{:.0f}"%string))
  end.
Proof.
  unfold sortClassAndFindValues, bind, get_frame, lift, loc, class_rows.
  rewrite !lookup_agg, groupby_lookup.
  destruct (rows_with recclass cls (dropna (meteordf w))); reflexivity.
Qed.

Lemma class_rows_complete (cls : string) (df : DataFrame) :
  Forall (fun r => complete r = true) (class_rows cls df).
Proof.
  rewrite class_rows_filter, Forall_forall. intros r Hin.
  apply filter_In in Hin. destruct Hin as [Hin _].
  apply filter_In in Hin. tauto.
Qed.

Lemma complete_mass (r : Row) : complete r = true -> notna (mass_g r) = true.
Proof.
  unfold complete. rewrite !andb_true_iff. tauto.
Qed.

Lemma complete_name (r : Row) : complete r = true -> isSome (name r) = true.
Proof.
  unfold complete. rewrite !andb_true_iff. tauto.
Qed.

Lemma filter_all {A} (p : A -> bool) (l : list A) :
  Forall (fun x => p x = true) l -> filter p l = l.
Proof.
  induction 1 as [|x l Hx _ IH]; simpl; [reflexivity|].
  now rewrite Hx, IH.
Qed.

Lemma masses_present (g : DataFrame) :
  Forall (fun r => complete r = true) g ->
  filter notna (map mass_g g) = map mass_g g.
Proof.
  intro Hall. apply filter_all. rewrite Forall_map.
  eapply Forall_impl; [|exact Hall]. apply complete_mass.
Qed.

Lemma names_present (g : DataFrame) :
  Forall (fun r => complete r = true) g ->
  count (map name g) = Z.of_nat (List.length g).
Proof.
  intro Hall. unfold count. rewrite filter_all, length_map; [reflexivity|].
  rewrite Forall_map. eapply Forall_impl; [|exact Hall]. apply complete_name.
Qed.

(** What the function computes for the class, in the words of the
    specification, with the filter the code applies. *)
Lemma class_summary_complete (cls : string) (w : World) :
  class_summary (fst (sortClassAndFindValues cls w))
  = summarize_over complete (meteordf w) cls.
Proof.
  rewrite sortClassAndFindValues_run. unfold summarize_over.
  pose proof (class_rows_complete cls (meteordf w)) as Hall.
  rewrite <- class_rows_filter.
  destruct (class_rows cls (meteordf w)) as [|r g]; [reflexivity|].
  cbv zeta. unfold fst, class_summary, count_, meanweightclass, maxweight, minweight.
  unfold group_mean, col_max, col_min.
  rewrite (masses_present (r :: g) Hall), (names_present (r :: g) Hall).
  reflexivity.
Qed.

Lemma isSome_iff {A} (c : option A) : isSome c = true <-> c <> None.
Proof. destruct c; simpl; split; congruence. Qed.

Lemma forallb_isSome {A} (l : list (option A)) :
  forallb isSome l = true <-> Forall (fun c => c <> None) l.
Proof.
  rewrite forallb_forall, Forall_forall.
  split; intros Hall c Hin; apply isSome_iff, Hall, Hin.
Qed.

Lemma complete_spec (r : Row) :
  complete r = true <->
  id_ r <> None /\ name r <> None /\ recclass r <> None /\
  PrimFloat.is_nan (mass_g r) = false /\ PrimFloat.is_nan (reclat r) = false /\
  PrimFloat.is_nan (reclong r) = false /\ year r <> None /\
  Forall (fun c => c <> None) (others r) /\
  firstLetter r <> Some None.
Proof.
  unfold complete, notna.
  rewrite !andb_true_iff, !negb_true_iff, !isSome_iff, forallb_isSome.
  destruct (firstLetter r) as [[|]|]; intuition congruence.
Qed.

(** C1, as stated, fails: a row that misses only its year has all of
    name, classification, mass, latitude and longitude, so the summary
    over the rows with these five fields counts it; the function drops
    it, and here raises [KeyError] as the class is left without rows. *)
Lemma sortClassAndFindValues_drops_row_without_year :
  let w := mkWorld [Abee_without_year] None in
  has_required_fields Abee_without_year = true /\
  summarize_over has_required_fields (meteordf w) "L6"
    = Some (mkClassSummary 1 107000 107000 107000) /\
  fst (sortClassAndFindValues "L6" w) = Raise KeyError /\
  class_summary (fst (sortClassAndFindValues "L6" w))
    <> summarize_over has_required_fields (meteordf w) "L6".
Proof.
  repeat split. discriminate.
Qed.

(** C1, amended: the per-class count, mean mass, largest mass and
    smallest mass are computed over the rows of the class among the rows
    that have a value in every column of the frame (identifier and year
    included), and only those; the mean is the float64 mean of a group,
    the compensated sum of these masses in row order over their number;
    on the scenario table the class L6 has count 1 and mean, largest and
    smallest mass 107000. *)
Theorem sortClassAndFindValues_class_summary :
  (forall r : Row,
      complete r = true <->
      id_ r <> None /\ name r <> None /\ recclass r <> None /\
      PrimFloat.is_nan (mass_g r) = false /\
      PrimFloat.is_nan (reclat r) = false /\
      PrimFloat.is_nan (reclong r) = false /\ year r <> None /\
      Forall (fun c => c <> None) (others r) /\
      firstLetter r <> Some None) /\
  (forall (w : World) (cls : string),
      class_summary (fst (sortClassAndFindValues cls w))
      = summarize_over complete (meteordf w) cls) /\
  class_summary (fst (sortClassAndFindValues "L6" scenario))
    = Some (mkClassSummary 1 107000 107000 107000).
Proof.
  split; [exact complete_spec|].
  split; [intros w cls; apply class_summary_complete | reflexivity].
Qed.

(** On the scenario table the record of class L5 has no mass: it is
    dropped and the class is unknown to the summary. *)
Lemma sortClassAndFindValues_scenario_L5 :
  fst (sortClassAndFindValues "L5" scenario) = Raise KeyError.
Proof. reflexivity. Qed.


(** C6: the three overall means of a result are the means of the mass,
    latitude and longitude columns of the whole frame as [Series.mean]
    takes them (the sum of the column, a missing cell counting for zero,
    over the number of cells of that column that hold a value); each
    depends on its own column only, whatever the other cells of a row
    hold; and they are the same for every classification the call
    succeeds on. *)
Theorem sortClassAndFindValues_overall_means
  (w : World) (cls : string) (v : ClassValues) :
  fst (sortClassAndFindValues cls w) = Ok v ->
  (aveweight v = Series_mean (map mass_g (meteordf w)) /\
   avelat v = Series_mean (map reclat (meteordf w)) /\
   avelong v = Series_mean (map reclong (meteordf w))) /\
  (forall (w' : World) (cls' : string) (v' : ClassValues),
      fst (sortClassAndFindValues cls' w') = Ok v' ->
      (map mass_g (meteordf w') = map mass_g (meteordf w) ->
       aveweight v' = aveweight v) /\
      (map reclat (meteordf w') = map reclat (meteordf w) ->
       avelat v' = avelat v) /\
      (map reclong (meteordf w') = map reclong (meteordf w) ->
       avelong v' = avelong v)) /\
  (forall (cls' : string) (v' : ClassValues),
      fst (sortClassAndFindValues cls' w) = Ok v' ->
      aveweight v' = aveweight v /\ avelat v' = avelat v /\
      avelong v' = avelong v).
Proof.
  rewrite sortClassAndFindValues_run.
  destruct (class_rows cls (meteordf w)) as [|r g]; [discriminate|].
  cbv zeta. simpl fst. intro Hv. injection Hv as <-.
  split; [repeat split|]. split.
  - intros w' cls' v'. rewrite sortClassAndFindValues_run.
    destruct (class_rows cls' (meteordf w')) as [|r' g']; [discriminate|].
    cbv zeta. simpl fst. intro Hv'. injection Hv' as <-.
    cbn [aveweight avelat avelong].
    repeat split; intros ->; reflexivity.
  - intros cls' v'. rewrite sortClassAndFindValues_run.
    destruct (class_rows cls' (meteordf w)) as [|r' g']; [discriminate|].
    cbv zeta. simpl fst. intro Hv'. injection Hv' as <-.
    repeat split.
Qed.

(** On the scenario table the record of class L5 has no mass: its
    latitude and longitude count for the overall means, its mass cell
    does not. *)
Lemma sortClassAndFindValues_overall_means_witness :
  let v := mkClassValues 107000 45.900000000000006 (-60.600000000000001)
             107000 1 107000 107000 in
  fst (sortClassAndFindValues "L6" scenario) = Ok v /\
  aveweight v = Series_mean [107000; PrimFloat.nan]%float /\
  avelat v = Series_mean [54.2; 37.6]%float /\
  avelong v = Series_mean [-113.0; -8.2]%float.
Proof.
  cbv zeta. split; [reflexivity|].
  apply (sortClassAndFindValues_overall_means scenario "L6"%string).
  reflexivity.
Defined.

(** ** Order of binary64 values *)

Lemma SFcompare_self (a : spec_float) :
  a <> S754_nan -> SFcompare a a = Some Eq.
Proof.
  destruct a as [s|s| |s m e]; simpl; intro Hn.
  - reflexivity.
  - now destruct s.
  - now elim Hn.
  - rewrite Z.compare_refl.
    change (PosDef.Pos.compare_cont Eq m m) with (Pos.compare m m).
    rewrite Pos.compare_refl. now destruct s.
Qed.

Lemma SFcompare_nan_l (a b : spec_float) :
  SFcompare a b <> None -> a <> S754_nan.
Proof. intros Hc ->. now apply Hc. Qed.

Lemma SFcompare_nan_r (a b : spec_float) :
  SFcompare a b <> None -> b <> S754_nan.
Proof. intros Hc ->. apply Hc. now destruct a. Qed.

Lemma SFcompare_antisym (a b : spec_float) :
  SFcompare b a = option_map CompOpp (SFcompare a b).
Proof.
  destruct a as [sa|sa| |sa ma ea], b as [sb|sb| |sb mb eb]; simpl;
    try reflexivity;
    try (destruct sa; reflexivity);
    try (destruct sb; reflexivity);
    try (destruct sa, sb; reflexivity).
  f_equal.
  change (PosDef.Pos.compare_cont Eq mb ma) with (Pos.compare mb ma).
  change (PosDef.Pos.compare_cont Eq ma mb) with (Pos.compare ma mb).
  rewrite (Z.compare_antisym ea eb), (Pos.compare_antisym ma mb).
  destruct sa, sb; try reflexivity;
    destruct (ea ?= eb)%Z; reflexivity.
Qed.

Lemma notna_spec (x : float) :
  notna x = true <-> Prim2SF x <> S754_nan.
Proof.
  unfold notna, PrimFloat.is_nan. rewrite negb_involutive, FloatAxioms.eqb_spec.
  split.
  - intros He Hn. rewrite Hn in He. discriminate.
  - intro Hn. unfold SFeqb. now rewrite SFcompare_self.
Qed.

Lemma leb_refl (x : float) : notna x = true -> (x <=? x)%float = true.
Proof.
  rewrite notna_spec, FloatAxioms.leb_spec. intro Hn.
  unfold SFleb. now rewrite SFcompare_self.
Qed.

Lemma leb_notna (x y : float) :
  (x <=? y)%float = true -> notna x = true /\ notna y = true.
Proof.
  rewrite FloatAxioms.leb_spec, !notna_spec. unfold SFleb. intro Hle.
  assert (Hc : SFcompare (Prim2SF x) (Prim2SF y) <> None)
    by (destruct (SFcompare (Prim2SF x) (Prim2SF y)); congruence).
  split; [eapply SFcompare_nan_l | eapply SFcompare_nan_r]; exact Hc.
Qed.

Lemma SFcompare_some (a b : spec_float) :
  a <> S754_nan -> b <> S754_nan -> exists c, SFcompare a b = Some c.
Proof.
  destruct a, b; simpl; intros Ha Hb; try congruence; eexists; reflexivity.
Qed.

Lemma not_ltb_leb (x y : float) :
  notna x = true -> notna y = true ->
  (x <? y)%float = false -> (y <=? x)%float = true.
Proof.
  rewrite !notna_spec, FloatAxioms.ltb_spec, FloatAxioms.leb_spec.
  intros Hx Hy. unfold SFltb, SFleb.
  rewrite (SFcompare_antisym (Prim2SF x) (Prim2SF y)).
  destruct (SFcompare_some _ _ Hx Hy) as [c ->]. simpl.
  destruct c; simpl; congruence.
Qed.

(** The running smallest value never exceeds the running largest. *)
Lemma fold_min_le_max (vs : list float) : forall mn mx : float,
  (mn <=? mx)%float = true ->
  Forall (fun x => notna x = true) vs ->
  (fold_left fmin vs mn <=? fold_left fmax vs mx)%float = true.
Proof.
  induction vs as [|x vs IH]; intros mn mx Hle Hall; simpl; [exact Hle|].
  inversion Hall as [|? ? Hx Hvs]; subst.
  destruct (leb_notna _ _ Hle) as [Hmn Hmx].
  apply IH; [|exact Hvs].
  unfold fmin, fmax.
  destruct (x <? mn)%float eqn:E1, (mx <? x)%float eqn:E2.
  - now apply leb_refl.
  - now apply not_ltb_leb.
  - now apply not_ltb_leb.
  - exact Hle.
Qed.

Lemma col_min_le_max (l : list float) :
  l <> [] -> Forall (fun x => notna x = true) l ->
  (col_min l <=? col_max l)%float = true.
Proof.
  intros Hne Hall. unfold col_min, col_max.
  rewrite (filter_all notna l Hall).
  destruct l as [|v vs]; [now elim Hne|].
  inversion Hall as [|? ? Hv Hvs]; subst.
  apply fold_min_le_max; [now apply leb_refl | exact Hvs].
Qed.

(** C8, as stated, fails on both sides: the mean is a rounded float64
    value. For three qualifying rows of mass 0.1 the smallest and largest
    mass are 0.1 and the mean is the next float above 0.1; for three
    qualifying rows of mass 0.7 the mean is below 0.7. *)
Lemma sortClassAndFindValues_mean_outside_min_max :
  (exists v,
      fst (sortClassAndFindValues "L6" specks) = Ok v /\
      minweight v = 0.1%float /\ maxweight v = 0.1%float /\
      meanweightclass v = 0.10000000000000002%float /\
      (meanweightclass v <=? maxweight v)%float = false) /\
  (exists v,
      fst (sortClassAndFindValues "H5" specks) = Ok v /\
      minweight v = 0.7%float /\ maxweight v = 0.7%float /\
      meanweightclass v = 0.69999999999999984%float /\
      (minweight v <=? meanweightclass v)%float = false).
Proof.
  split; eexists; (split; [reflexivity|]); repeat split.
Qed.

(** C8, amended: for every classification with at least one qualifying
    row, the smallest mass of the result is at most its largest mass. *)
Theorem sortClassAndFindValues_min_le_max
  (w : World) (cls : string) (v : ClassValues) :
  fst (sortClassAndFindValues cls w) = Ok v ->
  (minweight v <=? maxweight v)%float = true.
Proof.
  rewrite sortClassAndFindValues_run.
  pose proof (class_rows_complete cls (meteordf w)) as Hall.
  destruct (class_rows cls (meteordf w)) as [|r g]; [discriminate|].
  cbv zeta. simpl fst. intro Hv. injection Hv as <-.
  change ((col_min (map mass_g (r :: g)) <=? col_max (map mass_g (r :: g)))%float
          = true).
  apply col_min_le_max; [discriminate|].
  rewrite Forall_map. eapply Forall_impl; [|exact Hall]. apply complete_mass.
Qed.

Lemma sortClassAndFindValues_min_le_max_witness :
  (minweight (mkClassValues 107000 45.900000000000006 (-60.600000000000001)
                107000 1 107000 107000)
   <=? maxweight (mkClassValues 107000 45.900000000000006 (-60.600000000000001)
                107000 1 107000 107000))%float = true.
Proof.
  apply (sortClassAndFindValues_min_le_max scenario "L6"%string).
  reflexivity.
Defined.

(** ** Name index *)

Section SortNameFacts.
Variable upper : string -> string.

Lemma string_keqb (a b : string) : keqb a b = String.eqb a b.
Proof.
  unfold keqb. simpl.
  destruct (String.eqb_spec a b) as [->|Hne].
  - assert (Heq : String.compare b b = Eq) by now apply String_as_OT.cmp_eq.
    now rewrite Heq.
  - destruct (String.compare a b) eqn:E; try reflexivity.
    apply String.compare_eq_iff in E. contradiction.
Qed.

Lemma has_key_firstLetter (k : string) (r : Row) :
  has_key firstLetter_key k (setitem_firstLetter upper r) = starts_under upper k r.
Proof.
  unfold has_key, starts_under, firstLetter_key, setitem_firstLetter,
    first_letter_of, str_upper, str_get0.
  simpl.
  destruct (name r) as [[|a rest]|]; simpl; try reflexivity.
  apply string_keqb.
Qed.

Lemma name_setitem (df : DataFrame) :
  map name (map (setitem_firstLetter upper) df) = map name df.
Proof. rewrite map_map. reflexivity. Qed.

Lemma rows_with_firstLetter (k : string) (df : DataFrame) :
  rows_with firstLetter_key k (map (setitem_firstLetter upper) df)
  = map (setitem_firstLetter upper) (filter (starts_under upper k) df).
Proof.
  unfold rows_with. rewrite filter_map_comm. f_equal.
  apply filter_ext. intro r. apply has_key_firstLetter.
Qed.

Lemma named_or_nameless (df : DataFrame) : named df \/ nameless df.
Proof.
  unfold named, nameless. induction df as [|r df IH]; [left; now left|].
  destruct (name r) as [n|] eqn:En.
  - left. right. exists r. split; [now left | congruence].
  - destruct IH as [[-> | [r' [Hin Hn]]] | [_ Hall]].
    + right. split; [discriminate|]. intros r' [<- | []]. exact En.
    + left. right. exists r'. split; [now right | exact Hn].
    + right. split; [discriminate|]. intros r' [<- | Hin]; [exact En | now apply Hall].
Qed.

Lemma named_not_nameless (df : DataFrame) : named df -> ~ nameless df.
Proof.
  intros [-> | [r [Hin Hn]]] [Hne Hall]; [now apply Hne|].
  apply Hn, Hall, Hin.
Qed.

Lemma existsb_isSome {A} (col : list (option A)) :
  existsb isSome col = true <-> exists c, In c col /\ c <> None.
Proof.
  rewrite existsb_exists. split; intros [c [Hin Hc]]; exists c;
    (split; [exact Hin|]); now apply isSome_iff.
Qed.

Lemma str_accessor_named (df : DataFrame) :
  named df -> str_accessor (map name df) = Ok (map name df).
Proof.
  intros [-> | [r [Hin Hn]]]; [reflexivity|].
  unfold str_accessor.
  assert (He : existsb isSome (map name df) = true).
  { apply existsb_isSome. exists (name r). split; [now apply in_map | exact Hn]. }
  rewrite He. now destruct (map name df).
Qed.

Lemma str_accessor_nameless (df : DataFrame) :
  nameless df -> str_accessor (map name df) = Raise AttributeError.
Proof.
  intros [Hne Hall]. unfold str_accessor.
  assert (He : existsb isSome (map name df) = false).
  { destruct (existsb isSome (map name df)) eqn:E; [|reflexivity].
    apply existsb_isSome in E. destruct E as [c [Hin Hc]].
    apply in_map_iff in Hin. destruct Hin as [r [<- Hin]].
    elim Hc. now apply Hall. }
  rewrite He. destruct df; [now elim Hne | reflexivity].
Qed.

Lemma sortName_run (w : World) :
  named (meteordf w) ->
  sortName upper w =
  let df' := map (setitem_firstLetter upper) (meteordf w) in
  (Ok (map (fun kv => (fst kv, map name (snd kv))) (groupby firstLetter_key df')),
   mkWorld df' (float_format w)).
Proof.
  intro Hn. unfold sortName, bind, get_frame, lift.
  rewrite (str_accessor_named _ Hn). reflexivity.
Qed.

Lemma sortName_raise (w : World) :
  nameless (meteordf w) -> sortName upper w = (Raise AttributeError, w).
Proof.
  intro Hn. unfold sortName, bind, get_frame, lift.
  rewrite (str_accessor_nameless _ Hn). reflexivity.
Qed.

Lemma named_setitem (df : DataFrame) :
  named df -> named (map (setitem_firstLetter upper) df).
Proof.
  intros [-> | [r [Hin Hn]]]; [now left|].
  right. exists (setitem_firstLetter upper r). split; [now apply in_map | exact Hn].
Qed.

Lemma first_letter_stable (r : Row) :
  setitem_firstLetter upper (setitem_firstLetter upper r)
  = setitem_firstLetter upper r.
Proof. reflexivity. Qed.

Lemma sortName_group (df : DataFrame) (k : string) (g : list (option string)) :
  In (k, g) (map (fun kv => (fst kv, map name (snd kv)))
               (groupby firstLetter_key (map (setitem_firstLetter upper) df))) ->
  g <> [] /\ g = map name (filter (starts_under upper k) df).
Proof.
  intro Hin. apply in_map_iff in Hin. destruct Hin as [[k0 g0] [Heq Hin]].
  simpl in Heq. injection Heq as -> <-.
  apply groupby_in in Hin. destruct Hin as [Hg0 Hne].
  rewrite rows_with_firstLetter in Hg0.
  split.
  - destruct g0; [now elim Hne | discriminate].
  - rewrite Hg0. apply name_setitem.
Qed.

Lemma sortName_covers (df : DataFrame) (r : Row) (a : ascii) (rest : string) :
  In r df -> name r = Some (String a rest) ->
  exists g,
    In (upper (String a EmptyString), g)
       (map (fun kv => (fst kv, map name (snd kv)))
          (groupby firstLetter_key (map (setitem_firstLetter upper) df))) /\
    In (Some (String a rest)) g.
Proof.
  intros Hin Hname.
  set (k := upper (String a EmptyString)).
  assert (Hr : In r (filter (starts_under upper k) df)).
  { apply filter_In. split; [exact Hin|].
    unfold starts_under. rewrite Hname. apply String.eqb_refl. }
  exists (map name (filter (starts_under upper k) df)). split.
  - apply (lookup_in _ k). rewrite lookup_map_values, groupby_lookup.
    rewrite rows_with_firstLetter.
    destruct (filter (starts_under upper k) df) as [|r0 g0]; [contradiction|].
    simpl. rewrite name_setitem. reflexivity.
  - rewrite <- Hname. now apply in_map.
Qed.

Lemma starts_under_name (k : string) (r : Row) :
  starts_under upper k r = true ->
  exists a rest,
    name r = Some (String a rest) /\ upper (String a EmptyString) = k.
Proof.
  unfold starts_under.
  destruct (name r) as [[|a rest]|]; try discriminate.
  intro Heq. apply String.eqb_eq in Heq. now exists a, rest.
Qed.

Lemma sortName_listed (df : DataFrame) (k : string)
  (g : list (option string)) (c : option string) :
  g = map name (filter (starts_under upper k) df) -> In c g ->
  exists a rest, c = Some (String a rest) /\ upper (String a EmptyString) = k.
Proof.
  intros -> Hin. apply in_map_iff in Hin. destruct Hin as [r [<- Hr]].
  apply filter_In in Hr. destruct Hr as [_ Hr].
  now apply starts_under_name.
Qed.

Lemma sortName_perm (df : DataFrame) :
  Permutation
    (List.concat
       (map snd
          (map (fun kv : string * list Row => (fst kv, map name (snd kv)))
             (groupby firstLetter_key (map (setitem_firstLetter upper) df)))))
    (map name (filter (fun r => isSome (first_letter_of upper r)) df)).
Proof.
  rewrite map_map. simpl.
  rewrite <- (map_map snd (map name)), <- concat_map.
  rewrite groupby_perm, filter_map_comm, name_setitem.
  reflexivity.
Qed.

(** C3, amended: on a frame with rows none of which has a name, the call
    raises [AttributeError] and leaves the frame as it is. On every other
    frame the index is a partition of the names that have a first
    character: its keys are distinct; no group is empty; the group of a
    key holds the names (unchanged, in row order) of exactly the records
    whose first character upper-cases to that key, so that a listed name
    is never missing and starts with a character of its key; every
    record with such a name is found under the upper-case of its first
    character; and all groups together hold each of these records
    once. *)
Theorem sortName_partition (w : World) :
  (nameless (meteordf w) -> sortName upper w = (Raise AttributeError, w)) /\
  (named (meteordf w) ->
   exists d,
     fst (sortName upper w) = Ok d /\
     NoDup (map fst d) /\
     (forall k g, In (k, g) d ->
        g <> [] /\ g = map name (filter (starts_under upper k) (meteordf w))) /\
     (forall k g c, In (k, g) d -> In c g ->
        exists a rest,
          c = Some (String a rest) /\ upper (String a EmptyString) = k) /\
     (forall r a rest,
        In r (meteordf w) -> name r = Some (String a rest) ->
        exists g, In (upper (String a EmptyString), g) d /\
                  In (Some (String a rest)) g) /\
     Permutation (List.concat (map snd d))
       (map name (filter (fun r => isSome (first_letter_of upper r)) (meteordf w)))).
Proof.
  split; [apply sortName_raise|].
  intro Hn. rewrite (sortName_run w Hn). cbv zeta. eexists. split; [reflexivity|].
  split; [|split; [|split; [|split]]].
  - rewrite map_fst_map_values. apply sorted_keys_NoDup, groupby_sorted.
  - intros k g. apply sortName_group.
  - intros k g c Hin. apply sortName_group in Hin. destruct Hin as [_ Hg].
    now apply sortName_listed with (df := meteordf w).
  - intros r a rest. apply sortName_covers.
  - apply sortName_perm.
Qed.

(** C10: the call returns a dictionary on every frame but those with
    rows and no name; the keys of the dictionary it returns come in
    ascending order (by character code). *)
Theorem sortName_keys_ascending (w : World) :
  (named (meteordf w) <-> exists d, fst (sortName upper w) = Ok d) /\
  (forall d,
      fst (sortName upper w) = Ok d ->
      StronglySorted (fun a b => String.compare a b = Lt) (map fst d)).
Proof.
  destruct (named_or_nameless (meteordf w)) as [Hn | Hn].
  - rewrite (sortName_run w Hn). cbv zeta. cbn [fst]. split.
    + split; [intros _; eexists; reflexivity | intros _; exact Hn].
    + intros d Hd. injection Hd as <-.
      rewrite map_fst_map_values.
      exact (groupby_sorted firstLetter_key
               (map (setitem_firstLetter upper) (meteordf w))).
  - rewrite (sortName_raise w Hn). cbn [fst]. split.
    + split; [intro Hn'; now elim (named_not_nameless _ Hn') | intros [d Hd]; discriminate].
    + intros d Hd. discriminate.
Qed.

Lemma setitem_with_firstLetter (df : DataFrame) :
  with_firstLetter upper df (map (setitem_firstLetter upper) df).
Proof.
  unfold with_firstLetter.
  induction df as [|r df IH]; simpl; constructor; [|exact IH].
  repeat split.
Qed.

(** C7, amended: the year counts and the class summary leave the frame
    as it is; the name index, when it is returned, adds the column
    [firstLetter] to the frame (or overwrites it) and leaves every other
    column and the rows as they are, and when the call raises (a frame
    with rows and no name) the frame is left as it is; and each of the
    three aggregations, called a second time on the same frame with the
    same arguments, returns (or raises) what it did the first time. *)
Theorem aggregations_frame_and_repeat :
  (forall w years, snd (getMeteorsPerYear years w) = w) /\
  (forall w cls, meteordf (snd (sortClassAndFindValues cls w)) = meteordf w) /\
  (forall w d,
      fst (sortName upper w) = Ok d ->
      with_firstLetter upper (meteordf w) (meteordf (snd (sortName upper w)))) /\
  (forall w e,
      fst (sortName upper w) = Raise e -> snd (sortName upper w) = w) /\
  (forall w years,
      fst (getMeteorsPerYear years (snd (getMeteorsPerYear years w)))
      = fst (getMeteorsPerYear years w)) /\
  (forall w cls,
      fst (sortClassAndFindValues cls (snd (sortClassAndFindValues cls w)))
      = fst (sortClassAndFindValues cls w)) /\
  (forall w,
      fst (sortName upper (snd (sortName upper w))) = fst (sortName upper w)).
Proof.
  assert (Hcls : forall w cls,
             meteordf (snd (sortClassAndFindValues cls w)) = meteordf w).
  { intros w cls. rewrite sortClassAndFindValues_run.
    destruct (class_rows cls (meteordf w)); reflexivity. }
  split; [reflexivity|]. split; [exact Hcls|].
  split; [|split; [|split; [reflexivity|split]]].
  - intros w d. destruct (named_or_nameless (meteordf w)) as [Hn | Hn].
    + rewrite (sortName_run w Hn). intros _. apply setitem_with_firstLetter.
    + rewrite (sortName_raise w Hn). discriminate.
  - intros w e. destruct (named_or_nameless (meteordf w)) as [Hn | Hn].
    + rewrite (sortName_run w Hn). discriminate.
    + rewrite (sortName_raise w Hn). reflexivity.
  - intros w cls.
    rewrite (sortClassAndFindValues_run cls (snd (sortClassAndFindValues cls w))).
    rewrite Hcls, (sortClassAndFindValues_run cls w).
    destruct (class_rows cls (meteordf w)); reflexivity.
  - intro w. destruct (named_or_nameless (meteordf w)) as [Hn | Hn].
    + rewrite (sortName_run w Hn). cbv zeta. cbn [fst snd].
      rewrite sortName_run by (apply named_setitem, Hn).
      cbv zeta. cbn [fst snd meteordf].
      rewrite map_map.
      rewrite (map_ext _ _ first_letter_stable (meteordf w)).
      reflexivity.
    + rewrite (sortName_raise w Hn). cbn [fst snd].
      rewrite (sortName_raise w Hn). reflexivity.
Qed.

End SortNameFacts.

(** The class summary, when it succeeds, leaves the display format of
    floats set; no aggregation reads it. *)
Lemma sortClassAndFindValues_sets_float_format
  (w : World) (cls : string) (v : ClassValues) :
  fst (sortClassAndFindValues cls w) = Ok v ->
  float_format (snd (sortClassAndFindValues cls w)) = Some "{:.0f}"%string.
Proof.
  rewrite sortClassAndFindValues_run.
  destruct (class_rows cls (meteordf w)); [discriminate | reflexivity].
Qed.

(** The name index of the scenario table. *)
Lemma sortName_scenario :
  fst (sortName upper_ascii scenario)
  = Ok [("A", [Some "Abee"]); ("O", [Some "Ourique"])]%string.
Proof. reflexivity. Qed.

(** C7, as stated, fails: after the name index is built on the scenario
    table, the frame is not the frame that was passed in. *)
Lemma sortName_changes_frame :
  meteordf (snd (sortName upper_ascii scenario)) <> meteordf scenario.
Proof.
  simpl. intro Heq. inversion Heq.
Qed.

(** C3, as stated, fails: on a table of one record without name the call
    raises [AttributeError]; there is no index, where the claim has the
    index without keys. *)
Lemma sortName_raises_without_names :
  let w := mkWorld [unnamed] None in
  nameless (meteordf w) /\
  fst (sortName upper_ascii w) = Raise AttributeError /\
  ~ (exists d, fst (sortName upper_ascii w) = Ok d).
Proof.
  cbv zeta. split; [|split].
  - split; [discriminate|]. intros r [<- | []]. reflexivity.
  - reflexivity.
  - intros [d Hd]. discriminate.
Qed.

Lemma aggregations_frame_and_repeat_witness :
  with_firstLetter upper_ascii (meteordf scenario)
    (meteordf (snd (sortName upper_ascii scenario))).
Proof.
  exact (proj1 (proj2 (proj2 (aggregations_frame_and_repeat upper_ascii)))
           scenario
           [("A", [Some "Abee"]); ("O", [Some "Ourique"])]%string eq_refl).
Defined.

Lemma scenario_named : named (meteordf scenario).
Proof. right. exists Abee. split; [now left | discriminate]. Qed.

Lemma sortName_partition_witness :
  exists d,
    fst (sortName upper_ascii scenario) = Ok d /\
    NoDup (map fst d) /\
    (forall k g, In (k, g) d ->
       g <> [] /\
       g = map name (filter (starts_under upper_ascii k) (meteordf scenario))) /\
    (forall k g c, In (k, g) d -> In c g ->
       exists a rest,
         c = Some (String a rest) /\ upper_ascii (String a EmptyString) = k) /\
    (forall r a rest,
       In r (meteordf scenario) -> name r = Some (String a rest) ->
       exists g, In (upper_ascii (String a EmptyString), g) d /\
                 In (Some (String a rest)) g) /\
    Permutation (List.concat (map snd d))
      (map name (filter (fun r => isSome (first_letter_of upper_ascii r))
                   (meteordf scenario))).
Proof.
  exact (proj2 (sortName_partition upper_ascii scenario) scenario_named).
Defined.

Lemma sortName_keys_ascending_witness :
  StronglySorted (fun a b => String.compare a b = Lt) ["A"; "O"]%string.
Proof.
  exact (proj2 (sortName_keys_ascending upper_ascii scenario)
           [("A", [Some "Abee"]); ("O", [Some "Ourique"])]%string eq_refl).
Defined.

(** * Properties of the pages and of the aggregations they call *)

(** ** Duplicates and sorting *)

Section KeyListFacts.
Context {K : Type} `{KeyOrder K}.

Lemma existsb_keqb (x : K) (seen : list K) :
  existsb (keqb x) seen = true <-> In x seen.
Proof.
  rewrite existsb_exists. split.
  - intros [y [Hin Heq]]. apply keqb_eq in Heq. now subst.
  - intro Hin. exists x. split; [exact Hin | apply keqb_refl].
Qed.

Lemma drop_duplicates_from_In (l : list K) : forall (seen : list K) (x : K),
  In x (drop_duplicates_from seen l) <-> In x l /\ ~ In x seen.
Proof.
  induction l as [|y l IH]; intros seen x; simpl.
  - tauto.
  - destruct (existsb (keqb y) seen) eqn:E.
    + apply existsb_keqb in E. rewrite IH. split.
      * intros [Hin Hns]. split; [now right | exact Hns].
      * intros [[<-|Hin] Hns]; [contradiction | now split].
    + assert (Hy : ~ In y seen).
      { intro Hin. apply existsb_keqb in Hin. congruence. }
      simpl. rewrite IH. simpl. split.
      * intros [<-|[Hin Hns]]; [split; [now left | exact Hy]|].
        split; [now right | tauto].
      * intros [[<-|Hin] Hns]; [now left|].
        destruct (keqb y x) eqn:Eyx.
        -- apply keqb_eq in Eyx. now left.
        -- apply keqb_neq in Eyx. right. split; [exact Hin|].
           intros [Heq|Hs]; [now apply Eyx | now apply Hns].
Qed.

Lemma drop_duplicates_from_NoDup (l : list K) : forall seen : list K,
  NoDup (drop_duplicates_from seen l).
Proof.
  induction l as [|y l IH]; intro seen; simpl; [constructor|].
  destruct (existsb (keqb y) seen); [apply IH|].
  constructor; [|apply IH].
  rewrite drop_duplicates_from_In. intros [_ Hns]. apply Hns. now left.
Qed.

(** Every value of the column is kept, once. *)
Lemma drop_duplicates_In (l : list K) (x : K) :
  In x (drop_duplicates l) <-> In x l.
Proof.
  unfold drop_duplicates. rewrite drop_duplicates_from_In. simpl. tauto.
Qed.

Lemma drop_duplicates_NoDup (l : list K) : NoDup (drop_duplicates l).
Proof. apply drop_duplicates_from_NoDup. Qed.

Lemma insert_sorted_In (x : K) (l : list K) (y : K) :
  In y (insert_sorted x l) <-> y = x \/ In y l.
Proof.
  induction l as [|z l IH]; simpl.
  - split; [intros [<-|[]]; now left | intros [->|[]]; now left].
  - destruct (kcmp x z); simpl; try rewrite IH; intuition congruence.
Qed.

Lemma insert_sorted_perm (x : K) (l : list K) :
  Permutation (insert_sorted x l) (x :: l).
Proof.
  induction l as [|z l IH]; simpl; [reflexivity|].
  destruct (kcmp x z); try reflexivity.
  rewrite IH. constructor.
Qed.

Lemma sort_keys_perm (l : list K) : Permutation (sort_keys l) l.
Proof.
  induction l as [|x l IH]; simpl; [reflexivity|].
  rewrite insert_sorted_perm. now constructor.
Qed.

Lemma sort_keys_In (l : list K) (y : K) : In y (sort_keys l) <-> In y l.
Proof.
  split; apply Permutation_in;
    [apply sort_keys_perm | symmetry; apply sort_keys_perm].
Qed.

Lemma insert_sorted_strict (x : K) (l : list K) :
  StronglySorted klt l -> ~ In x l -> StronglySorted klt (insert_sorted x l).
Proof.
  induction l as [|z l IH]; simpl; intros Hs Hnin.
  - constructor; constructor.
  - pose proof Hs as Hs0.
    apply StronglySorted_inv in Hs. destruct Hs as [Hs Hall].
    destruct (kcmp x z) eqn:E.
    + apply kcmp_eq in E. subst z. exfalso. apply Hnin. now left.
    + constructor; [exact Hs0|].
      constructor; [exact E|].
      eapply Forall_impl; [|exact Hall].
      intros a Ha. eapply klt_trans; eassumption.
    + constructor.
      * apply IH; [exact Hs|]. intro Hin. apply Hnin. now right.
      * rewrite Forall_forall in *. intros y Hy.
        apply insert_sorted_In in Hy. destruct Hy as [->|Hy].
        -- now apply kcmp_gt_lt.
        -- now apply Hall.
Qed.

(** Sorting distinct keys puts them in strictly ascending order. *)
Lemma sort_keys_strict (l : list K) :
  NoDup l -> StronglySorted klt (sort_keys l).
Proof.
  induction 1 as [|x l Hnin Hnd IH]; simpl; [constructor|].
  apply insert_sorted_strict; [exact IH|].
  now rewrite sort_keys_In.
Qed.

Lemma strict_sorted_NoDup (l : list K) : StronglySorted klt l -> NoDup l.
Proof.
  induction l as [|x l IH]; intro Hs; constructor.
  - apply StronglySorted_inv in Hs. destruct Hs as [_ Hall].
    rewrite Forall_forall in Hall. intro Hin.
    exact (klt_irrefl _ (Hall _ Hin)).
  - apply IH. now apply StronglySorted_inv in Hs.
Qed.

End KeyListFacts.

Lemma series_dropna_In {A} (col : list (option A)) (a : A) :
  In a (series_dropna col) <-> In (Some a) col.
Proof.
  induction col as [|[b|] col IH]; simpl.
  - tauto.
  - rewrite IH. split; intros [Heq|Hin]; auto; left; congruence.
  - rewrite IH. split; [now right | intros [Heq|Hin]; [discriminate | exact Hin]].
Qed.

Lemma year_options_In (df : DataFrame) (y : Z) :
  In y (year_options df) <-> exists r, In r df /\ year r = Some y.
Proof.
  unfold year_options.
  rewrite sort_keys_In, drop_duplicates_In, series_dropna_In, in_map_iff.
  split; intros [r [H1 H2]]; exists r; tauto.
Qed.

Lemma class_options_In (df : DataFrame) (c : string) :
  In c (class_options df) <-> exists r, In r df /\ recclass r = Some c.
Proof.
  unfold class_options.
  rewrite drop_duplicates_In, series_dropna_In, in_map_iff.
  split; intros [r [H1 H2]]; exists r; tauto.
Qed.

(** X4: the years offered by the year page are in strictly ascending
    order, hence without repetition, and are exactly the years that occur
    in the table. *)
Theorem year_options_sorted_complete (df : DataFrame) :
  StronglySorted Z.lt (year_options df) /\
  forall y, In y (year_options df) <-> exists r, In r df /\ year r = Some y.
Proof.
  split; [|intro y; apply year_options_In].
  unfold year_options.
  exact (sort_keys_strict (K := Z) _ (drop_duplicates_NoDup _)).
Qed.

Lemma drop_duplicates_from_app {K} `{KeyOrder K} (l1 l2 : list K) :
  forall seen : list K,
  exists more,
    drop_duplicates_from seen (l1 ++ l2) = drop_duplicates_from seen l1 ++ more.
Proof.
  induction l1 as [|x l1 IH]; intro seen; simpl.
  - now exists (drop_duplicates_from seen l2).
  - destruct (existsb (keqb x) seen).
    + apply IH.
    + destruct (IH (x :: seen)) as [more Hmore].
      exists more. now rewrite Hmore.
Qed.

Lemma series_dropna_app {A} (c1 c2 : list (option A)) :
  series_dropna (c1 ++ c2) = series_dropna c1 ++ series_dropna c2.
Proof.
  induction c1 as [|[a|] c1 IH]; simpl; [reflexivity | now rewrite IH | exact IH].
Qed.

(** X7: the classifications offered by the classification page are
    without repetition and are exactly the classifications that occur in
    the table, whether or not the rows that carry them are complete; they
    come in the order of their first occurrence: rows added at the end of
    the table only add options at the end. *)
Theorem class_options_distinct_complete (df : DataFrame) :
  NoDup (class_options df) /\
  (forall c, In c (class_options df) <->
             exists r, In r df /\ recclass r = Some c) /\
  forall df' : DataFrame,
    exists more, class_options (df ++ df') = class_options df ++ more.
Proof.
  split; [apply drop_duplicates_NoDup|].
  split; [intro c; apply class_options_In|].
  intro df'. unfold class_options, drop_duplicates.
  rewrite map_app, series_dropna_app.
  apply drop_duplicates_from_app.
Qed.

(** ** Year counts: row order, totals, the year page *)

Lemma loc_list_ext {K V} `{KeyOrder K} (s s' : Series K V) (labels : list K) :
  (forall k, In k labels -> lookup s k = lookup s' k) ->
  loc_list s labels = loc_list s' labels.
Proof.
  induction labels as [|k ks IH]; simpl; intro Hext; [reflexivity|].
  rewrite (Hext k (or_introl eq_refl)), IH; [reflexivity|].
  intros k' Hin. apply Hext. now right.
Qed.

Lemma records_in_year_perm (df df' : DataFrame) (y : Z) :
  Permutation df df' -> records_in_year df y = records_in_year df' y.
Proof.
  intro Hp. unfold records_in_year.
  now apply Permutation_length, Permutation_filter_compat.
Qed.

Lemma ids_in_year_perm (df df' : DataFrame) (y : Z) :
  Permutation df df' -> ids_in_year df y = ids_in_year df' y.
Proof.
  intro Hp. unfold ids_in_year. f_equal.
  now apply Permutation_length, Permutation_filter_compat.
Qed.

(** X1: the year counts do not depend on the order of the rows of the
    table: two tables with the same rows give the same answer, error
    included, to every request. *)
Theorem getMeteorsPerYear_row_order (w w' : World) (years : list Z) :
  Permutation (meteordf w) (meteordf w') ->
  fst (getMeteorsPerYear years w) = fst (getMeteorsPerYear years w').
Proof.
  intro Hp. rewrite !getMeteorsPerYear_run. simpl.
  apply loc_list_ext. intros y _. rewrite !yearsCount_lookup.
  now rewrite (records_in_year_perm _ _ y Hp), (ids_in_year_perm _ _ y Hp).
Qed.

Lemma getMeteorsPerYear_row_order_witness :
  fst (getMeteorsPerYear [1952; 1927]%Z scenario)
  = fst (getMeteorsPerYear [1952; 1927]%Z (mkWorld [Ourique; Abee] None)).
Proof.
  apply getMeteorsPerYear_row_order. simpl. apply perm_swap.
Defined.

Lemma year_options_NoDup (df : DataFrame) : NoDup (year_options df).
Proof.
  unfold year_options.
  eapply Permutation_NoDup; [symmetry; apply sort_keys_perm|].
  apply drop_duplicates_NoDup.
Qed.

(** Number of rows of year [y] with an identifier, as a natural number. *)
Lemma ids_in_year_cons (r : Row) (df : DataFrame) (y : Z) :
  ids_in_year (r :: df) y
  = ((if in_year y r && isSome (id_ r) then 1 else 0) + ids_in_year df y)%Z.
Proof.
  unfold ids_in_year. simpl.
  destruct (in_year y r && isSome (id_ r)); simpl List.length; lia.
Qed.

Lemma total_map_add (f g : Z -> Z) (ys : list Z) :
  total (map (fun y => (y, (f y + g y)%Z)) ys)
  = (total (map (fun y => (y, f y)) ys) + total (map (fun y => (y, g y)) ys))%Z.
Proof.
  unfold total. induction ys as [|y ys IH]; simpl; [reflexivity|].
  simpl in IH. lia.
Qed.

Lemma total_map_ext (f g : Z -> Z) (ys : list Z) :
  (forall y, In y ys -> f y = g y) ->
  total (map (fun y => (y, f y)) ys) = total (map (fun y => (y, g y)) ys).
Proof.
  unfold total. induction ys as [|y ys IH]; simpl; intro Hext; [reflexivity|].
  rewrite (Hext y (or_introl eq_refl)). simpl in IH. rewrite IH; [reflexivity|].
  intros y' Hin. apply Hext. now right.
Qed.

Lemma total_indicator_absent (r : Row) (ys : list Z) :
  (forall y, In y ys -> in_year y r = false) ->
  total (map (fun y => (y, if in_year y r && isSome (id_ r) then 1 else 0)%Z) ys)
  = 0%Z.
Proof.
  unfold total. induction ys as [|y ys IH]; simpl; intro Habs; [reflexivity|].
  rewrite (Habs y (or_introl eq_refl)). simpl. simpl in IH. apply IH.
  intros y' Hin. apply Habs. now right.
Qed.

Lemma in_year_eq (y : Z) (r : Row) : in_year y r = true <-> year r = Some y.
Proof.
  unfold in_year. destruct (year r) as [y'|]; [|split; discriminate].
  rewrite Z.eqb_eq. split; congruence.
Qed.

Lemma total_cons {K} (k : K) (n : Z) (s : Series K Z) :
  total ((k, n) :: s) = (n + total s)%Z.
Proof. reflexivity. Qed.

Lemma total_indicator_present (r : Row) (y0 : Z) (ys : list Z) :
  year r = Some y0 -> NoDup ys -> In y0 ys ->
  total (map (fun y => (y, if in_year y r && isSome (id_ r) then 1 else 0)%Z) ys)
  = (if isSome (id_ r) then 1 else 0)%Z.
Proof.
  intros Ey Hnd. induction Hnd as [|y ys Hnin Hnd IH]; intro Hin;
    [contradiction|].
  rewrite map_cons, total_cons.
  destruct Hin as [->|Hin].
  - assert (Hy : in_year y0 r = true) by now apply in_year_eq.
    rewrite Hy, total_indicator_absent.
    + simpl. destruct (isSome (id_ r)); lia.
    + intros y' Hin'. destruct (in_year y' r) eqn:E; [|reflexivity].
      apply in_year_eq in E. assert (y' = y0) by congruence.
      subst. contradiction.
  - assert (Hy : in_year y r = false).
    { destruct (in_year y r) eqn:E; [|reflexivity].
      apply in_year_eq in E. assert (y = y0) by congruence.
      subst. contradiction. }
    rewrite Hy, (IH Hin). simpl. lia.
Qed.

Lemma total_indicator (r : Row) (ys : list Z) :
  NoDup ys ->
  (forall y, year r = Some y -> In y ys) ->
  total (map (fun y => (y, if in_year y r && isSome (id_ r) then 1 else 0)%Z) ys)
  = (if isSome (year r) && isSome (id_ r) then 1 else 0)%Z.
Proof.
  intros Hnd Hcov. destruct (year r) as [y0|] eqn:Ey.
  - simpl. apply (total_indicator_present r y0); auto.
  - simpl. apply total_indicator_absent. intros y _.
    unfold in_year. now rewrite Ey.
Qed.

Lemma total_ids_cover (df : DataFrame) (ys : list Z) :
  NoDup ys ->
  (forall r y, In r df -> year r = Some y -> In y ys) ->
  total (map (fun y => (y, ids_in_year df y)) ys)
  = Z.of_nat (List.length (filter (fun r => isSome (year r) && isSome (id_ r)) df)).
Proof.
  intros Hnd. induction df as [|r df IH]; intro Hcov.
  - simpl. clear. unfold total.
    induction ys as [|y ys IHy]; simpl; [reflexivity | exact IHy].
  - rewrite (total_map_ext _ _ ys (fun y _ => ids_in_year_cons r df y)).
    rewrite total_map_add, IH, total_indicator; try assumption.
    + simpl. destruct (isSome (year r) && isSome (id_ r)); simpl List.length; lia.
    + intros y Hy. apply (Hcov r y); [now left | exact Hy].
    + intros r' y Hin Hy. apply (Hcov r' y); [now right | exact Hy].
Qed.

(** X6: when every offered year is requested, the answer has one entry
    per offered year, and the counts add up to the number of records
    that have both a year and an identifier. *)
Theorem getMeteorsPerYear_all_years (w : World) :
  exists res,
    fst (getMeteorsPerYear (year_options (meteordf w)) w) = Ok res /\
    map fst res = year_options (meteordf w) /\
    total res
    = Z.of_nat (List.length
                  (filter (fun r => isSome (year r) && isSome (id_ r))
                     (meteordf w))).
Proof.
  eexists. split.
  - rewrite getMeteorsPerYear_run. apply loc_list_years_present.
    intros y Hin. now apply year_options_In.
  - split.
    + rewrite map_map. simpl. apply map_id.
    + apply total_ids_cover; [apply year_options_NoDup|].
      intros r y Hin Hy. apply year_options_In. now exists r.
Qed.

(** ** Running an aggregation from a page *)

Lemma session_eta (s : Session) :
  mkSession (session_page s) (pd_float_format s) (screen s) = s.
Proof. now destruct s. Qed.

Lemma run_py_getMeteorsPerYear (years : list Z) (df : DataFrame) (s : Session) :
  run_py (getMeteorsPerYear years) df s =
  match fst (getMeteorsPerYear years (mkWorld df (pd_float_format s))) with
  | Ok res => (Done (res, df), s)
  | Raise e => (Failed (PyError e), s)
  end.
Proof.
  unfold run_py. rewrite getMeteorsPerYear_run. simpl.
  destruct (loc_list _ years); simpl; now rewrite session_eta.
Qed.

Lemma app_assoc_screen (scr : list Event) (e : Event) (l : list Event) :
  (scr ++ [e]) ++ l = scr ++ e :: l.
Proof. now rewrite <- app_assoc. Qed.

Lemma meteorYearsPage_run (df : DataFrame) (years : list Z) (s : Session) :
  incl years (year_options df) ->
  let counts := map (fun y => (y, ids_in_year df y)) years in
  exists t sub label caption text,
    meteorYearsPage df years s =
    if (total counts =? 0)%Z then
      (Failed (PyError ValueError),
       mkSession (session_page s) (pd_float_format s)
         (screen s ++
          [st_title t; st_subheader sub;
           st_multiselect label (map VInt (year_options df))]))
    else
      (Done tt,
       mkSession (session_page s) (pd_float_format s)
         (screen s ++
          [st_title t; st_subheader sub;
           st_multiselect label (map VInt (year_options df));
           st_pyplot_pie (map snd counts) years caption;
           st_write [VStr text]; st_write [VSeries counts]])).
Proof.
  intros Hincl counts.
  assert (Hres : fst (getMeteorsPerYear years (mkWorld df (pd_float_format s)))
                 = Ok counts).
  { rewrite getMeteorsPerYear_run. apply loc_list_years_present.
    intros y Hin. apply year_options_In. now apply Hincl. }
  do 5 eexists.
  unfold meteorYearsPage, app_bind, emit. simpl.
  rewrite run_py_getMeteorsPerYear. simpl pd_float_format. rewrite Hres.
  cbn [fst snd]. unfold ax_pie, app_fail, app_ret.
  destruct (total counts =? 0)%Z.
  - rewrite !app_assoc_screen. reflexivity.
  - cbn [fst snd session_page pd_float_format screen].
    rewrite !app_assoc_screen.
    replace (map fst counts) with years; [reflexivity|].
    unfold counts. rewrite map_map. simpl. now rewrite map_id.
Qed.

(** X5: for a selection among the offered years, in any order, the call
    of [getMeteorsPerYear] raises no [KeyError]. When some selected year
    has a record with an identifier, the page shows the title, the
    subheader, the multiselect with the offered years, a pie chart whose
    labels are the selected years in the order of the selection and whose
    slices are the numbers of identifiers of these years, a line of text
    and the same counts as a series, and changes nothing else. When years
    are selected and no record of them has an identifier, the pie chart
    raises [ValueError], with the title, the subheader and the
    multiselect on the screen. *)
Theorem meteorYearsPage_offered_years
  (df : DataFrame) (years : list Z) (s : Session) :
  incl years (year_options df) ->
  let counts := map (fun y => (y, ids_in_year df y)) years in
  exists t sub label caption text,
    ((0 < total counts)%Z ->
     meteorYearsPage df years s =
     (Done tt,
      mkSession (session_page s) (pd_float_format s)
        (screen s ++
         [st_title t; st_subheader sub;
          st_multiselect label (map VInt (year_options df));
          st_pyplot_pie (map snd counts) years caption;
          st_write [VStr text]; st_write [VSeries counts]]))) /\
    (years <> [] -> total counts = 0%Z ->
     meteorYearsPage df years s =
     (Failed (PyError ValueError),
      mkSession (session_page s) (pd_float_format s)
        (screen s ++
         [st_title t; st_subheader sub;
          st_multiselect label (map VInt (year_options df))]))).
Proof.
  intros Hincl counts.
  destruct (meteorYearsPage_run df years s Hincl)
    as (t & sub & label & caption & text & Hrun).
  fold counts in Hrun.
  exists t, sub, label, caption, text. split.
  - intro Hpos. rewrite Hrun.
    destruct (Z.eqb_spec (total counts) 0) as [Hz | _]; [lia | reflexivity].
  - intros _ Hz. rewrite Hrun, Hz. reflexivity.
Qed.

Lemma meteorYearsPage_offered_years_witness :
  let df := [Abee; Ourique] in
  let years := [1952; 1927]%Z in
  let s := mkSession (Some "Year"%string) None [] in
  let counts := map (fun y => (y, ids_in_year df y)) years in
  exists t sub label caption text,
    meteorYearsPage df years s =
    (Done tt,
     mkSession (session_page s) (pd_float_format s)
       (screen s ++
        [st_title t; st_subheader sub;
         st_multiselect label (map VInt (year_options df));
         st_pyplot_pie (map snd counts) years caption;
         st_write [VStr text]; st_write [VSeries counts]])).
Proof.
  cbv zeta.
  destruct (meteorYearsPage_offered_years [Abee; Ourique] [1952; 1927]%Z
              (mkSession (Some "Year"%string) None []))
    as (t & sub & label & caption & text & Hdone & _).
  - intros y [<-|[<-|[]]]; vm_compute; tauto.
  - exists t, sub, label, caption, text. apply Hdone. reflexivity.
Defined.

(** The year 860 of the table [two_years] is offered, and its only record
    has no identifier: selecting it alone fails in the pie chart. *)
Lemma meteorYearsPage_no_identifier :
  In 860%Z (year_options (meteordf two_years)) /\
  fst (meteorYearsPage (meteordf two_years) [860%Z] (mkSession None None []))
  = Failed (PyError ValueError).
Proof. split; [vm_compute; tauto | reflexivity]. Qed.

(** ** The smallest and the largest mass of a class *)

Lemma SFleb_trans (a b c : spec_float) :
  SFleb a b = true -> SFleb b c = true -> SFleb a c = true.
Proof.
  unfold SFleb.
  destruct a as [sa|sa| |sa ma ea], b as [sb|sb| |sb mb eb],
    c as [sc|sc| |sc mc ec]; simpl;
    try discriminate; try reflexivity;
    repeat match goal with s : bool |- _ => destruct s end;
    simpl; try discriminate; try reflexivity; try (intros; assumption).
  all: change (PosDef.Pos.compare_cont Eq) with Pos.compare.
  all: destruct (Z.compare_spec ea eb), (Z.compare_spec eb ec),
         (Z.compare_spec ea ec); simpl;
       try discriminate; try reflexivity; try lia; subst.
  all: destruct (Pos.compare_spec ma mb), (Pos.compare_spec mb mc),
         (Pos.compare_spec ma mc); simpl;
       try discriminate; try reflexivity; try lia.
Qed.

Lemma leb_trans (x y z : float) :
  (x <=? y)%float = true -> (y <=? z)%float = true -> (x <=? z)%float = true.
Proof. rewrite !FloatAxioms.leb_spec. apply SFleb_trans. Qed.

Lemma ltb_leb (x y : float) :
  (x <? y)%float = true -> (x <=? y)%float = true.
Proof.
  rewrite FloatAxioms.ltb_spec, FloatAxioms.leb_spec. unfold SFltb, SFleb.
  destruct (SFcompare (Prim2SF x) (Prim2SF y)) as [[| |]|]; congruence.
Qed.

Lemma ltb_irrefl (x : float) : (x <? x)%float = false.
Proof.
  rewrite FloatAxioms.ltb_spec. unfold SFltb.
  pose proof (SFcompare_antisym (Prim2SF x) (Prim2SF x)) as Ha.
  destruct (SFcompare (Prim2SF x) (Prim2SF x)) as [[| |]|];
    simpl in Ha; congruence.
Qed.

Lemma fmax_cases (m x : float) : fmax m x = m \/ fmax m x = x.
Proof. unfold fmax. destruct (m <? x)%float; [now right | now left]. Qed.

Lemma fmin_cases (m x : float) : fmin m x = m \/ fmin m x = x.
Proof. unfold fmin. destruct (x <? m)%float; [now right | now left]. Qed.

Lemma fmax_upper (m x : float) :
  notna m = true -> notna x = true ->
  (m <=? fmax m x)%float = true /\ (x <=? fmax m x)%float = true /\
  notna (fmax m x) = true.
Proof.
  intros Hm Hx. unfold fmax. destruct (m <? x)%float eqn:E.
  - repeat split; [now apply ltb_leb | now apply leb_refl | exact Hx].
  - repeat split; [now apply leb_refl | now apply not_ltb_leb | exact Hm].
Qed.

Lemma fmin_lower (m x : float) :
  notna m = true -> notna x = true ->
  (fmin m x <=? m)%float = true /\ (fmin m x <=? x)%float = true /\
  notna (fmin m x) = true.
Proof.
  intros Hm Hx. unfold fmin. destruct (x <? m)%float eqn:E.
  - repeat split; [now apply ltb_leb | now apply leb_refl | exact Hx].
  - repeat split; [now apply leb_refl | now apply not_ltb_leb | exact Hm].
Qed.

Lemma fold_fmax_In (vs : list float) : forall v, In (fold_left fmax vs v) (v :: vs).
Proof.
  induction vs as [|x vs IH]; intro v; simpl; [now left|].
  destruct (IH (fmax v x)) as [Heq|Hin].
  - rewrite <- Heq. destruct (fmax_cases v x) as [-> | ->]; [now left | right; now left].
  - right. now right.
Qed.

Lemma fold_fmin_In (vs : list float) : forall v, In (fold_left fmin vs v) (v :: vs).
Proof.
  induction vs as [|x vs IH]; intro v; simpl; [now left|].
  destruct (IH (fmin v x)) as [Heq|Hin].
  - rewrite <- Heq. destruct (fmin_cases v x) as [-> | ->]; [now left | right; now left].
  - right. now right.
Qed.

Lemma fold_fmax_upper (vs : list float) : forall v,
  notna v = true -> Forall (fun x => notna x = true) vs ->
  forall m, In m (v :: vs) -> (m <=? fold_left fmax vs v)%float = true.
Proof.
  induction vs as [|x vs IH]; intros v Hv Hall m Hin; simpl.
  - destruct Hin as [<-|[]]. now apply leb_refl.
  - inversion Hall as [|? ? Hx Hvs]; subst.
    destruct (fmax_upper v x Hv Hx) as [H1 [H2 H3]].
    assert (Hacc : (fmax v x <=? fold_left fmax vs (fmax v x))%float = true)
      by (apply IH; [exact H3 | exact Hvs | now left]).
    destruct Hin as [<-|[<-|Hin]].
    + now apply leb_trans with (fmax v x).
    + now apply leb_trans with (fmax v x).
    + apply IH; [exact H3 | exact Hvs | now right].
Qed.

Lemma fold_fmin_lower (vs : list float) : forall v,
  notna v = true -> Forall (fun x => notna x = true) vs ->
  forall m, In m (v :: vs) -> (fold_left fmin vs v <=? m)%float = true.
Proof.
  induction vs as [|x vs IH]; intros v Hv Hall m Hin; simpl.
  - destruct Hin as [<-|[]]. now apply leb_refl.
  - inversion Hall as [|? ? Hx Hvs]; subst.
    destruct (fmin_lower v x Hv Hx) as [H1 [H2 H3]].
    assert (Hacc : (fold_left fmin vs (fmin v x) <=? fmin v x)%float = true)
      by (apply IH; [exact H3 | exact Hvs | now left]).
    destruct Hin as [<-|[<-|Hin]].
    + now apply leb_trans with (fmin v x).
    + now apply leb_trans with (fmin v x).
    + apply IH; [exact H3 | exact Hvs | now right].
Qed.

Lemma col_extremes (l : list float) :
  l <> [] -> Forall (fun x => notna x = true) l ->
  In (col_min l) l /\ In (col_max l) l /\
  forall m, In m l ->
    (col_min l <=? m)%float = true /\ (m <=? col_max l)%float = true.
Proof.
  intros Hne Hall. unfold col_min, col_max.
  rewrite (filter_all notna l Hall).
  destruct l as [|v vs]; [now elim Hne|].
  inversion Hall as [|? ? Hv Hvs]; subst.
  split; [apply fold_fmin_In|]. split; [apply fold_fmax_In|].
  intros m Hin. split.
  - now apply fold_fmin_lower.
  - now apply fold_fmax_upper.
Qed.

(** X2: when the class summary succeeds, the smallest and the largest
    mass it reports are masses of rows of the class that have a value in
    every column, and every such row has a mass between the two. *)
Theorem sortClassAndFindValues_extremes
  (w : World) (cls : string) (v : ClassValues) :
  fst (sortClassAndFindValues cls w) = Ok v ->
  let masses := map mass_g (filter (of_class cls) (dropna (meteordf w))) in
  In (minweight v) masses /\ In (maxweight v) masses /\
  forall m, In m masses ->
    (minweight v <=? m)%float = true /\ (m <=? maxweight v)%float = true.
Proof.
  rewrite sortClassAndFindValues_run.
  pose proof (class_rows_complete cls (meteordf w)) as Hall.
  unfold dropna. rewrite <- class_rows_filter.
  destruct (class_rows cls (meteordf w)) as [|r g]; [discriminate|].
  cbv zeta. simpl fst. intro Hv. injection Hv as <-.
  change (In (col_min (map mass_g (r :: g))) (map mass_g (r :: g)) /\
          In (col_max (map mass_g (r :: g))) (map mass_g (r :: g)) /\
          forall m, In m (map mass_g (r :: g)) ->
            (col_min (map mass_g (r :: g)) <=? m)%float = true /\
            (m <=? col_max (map mass_g (r :: g)))%float = true).
  apply col_extremes; [discriminate|].
  rewrite Forall_map. eapply Forall_impl; [|exact Hall]. apply complete_mass.
Qed.

Lemma sortClassAndFindValues_extremes_witness :
  let v := mkClassValues 0.39999999999999997 10 20 0.10000000000000002 3
             0.1 0.1 in
  let masses := map mass_g (filter (of_class "L6") (dropna (meteordf specks))) in
  In (minweight v) masses /\ In (maxweight v) masses /\
  forall m, In m masses ->
    (minweight v <=? m)%float = true /\ (m <=? maxweight v)%float = true.
Proof.
  apply (sortClassAndFindValues_extremes specks "L6"%string).
  reflexivity.
Defined.

(** ** Aggregations on a frame that carries the name-index column *)

Section AfterSortName.
Variable upper : string -> string.

Lemma records_in_year_setitem (df : DataFrame) (y : Z) :
  records_in_year (map (setitem_firstLetter upper) df) y = records_in_year df y.
Proof.
  unfold records_in_year. now rewrite filter_map_comm, length_map.
Qed.

Lemma ids_in_year_setitem (df : DataFrame) (y : Z) :
  ids_in_year (map (setitem_firstLetter upper) df) y = ids_in_year df y.
Proof.
  unfold ids_in_year. now rewrite filter_map_comm, length_map.
Qed.

(** X3: building the name index on a frame does not change what the year
    counts answer on it afterwards, for any request. *)
Theorem getMeteorsPerYear_after_sortName (w : World) (years : list Z) :
  fst (getMeteorsPerYear years (snd (sortName upper w)))
  = fst (getMeteorsPerYear years w).
Proof.
  destruct (named_or_nameless (meteordf w)) as [Hn | Hn];
    [|now rewrite (sortName_raise upper w Hn)].
  rewrite !getMeteorsPerYear_run, (sortName_run upper w Hn).
  cbv zeta. cbn [fst snd meteordf].
  apply loc_list_ext. intros y _. rewrite !yearsCount_lookup.
  now rewrite records_in_year_setitem, ids_in_year_setitem.
Qed.

Lemma complete_setitem (r : Row) :
  name r <> Some EmptyString -> firstLetter r <> Some None ->
  complete (setitem_firstLetter upper r) = complete r.
Proof.
  intros Hname Hfl. unfold complete, setitem_firstLetter, first_letter_of,
    str_upper, str_get0. simpl.
  destruct (name r) as [[|a rest]|]; simpl.
  - now elim Hname.
  - destruct (firstLetter r) as [[|]|]; try reflexivity. now elim Hfl.
  - now rewrite !andb_false_r.
Qed.

Lemma class_rows_setitem (cls : string) (df : DataFrame) :
  Forall (fun r => name r <> Some EmptyString /\ firstLetter r <> Some None) df ->
  class_rows cls (map (setitem_firstLetter upper) df)
  = map (setitem_firstLetter upper) (class_rows cls df).
Proof.
  intro Hall. rewrite !class_rows_filter.
  rewrite !filter_map_comm. f_equal.
  induction Hall as [|r df [Hn Hf] _ IH]; simpl; [reflexivity|].
  rewrite (complete_setitem r Hn Hf).
  destruct (complete r); simpl; [|exact IH].
  change (of_class cls (setitem_firstLetter upper r)) with (of_class cls r).
  destruct (of_class cls r); now rewrite IH.
Qed.

Lemma map_column_setitem {B} (col : Row -> B) (df : DataFrame) :
  (forall r, col (setitem_firstLetter upper r) = col r) ->
  map col (map (setitem_firstLetter upper) df) = map col df.
Proof.
  intro Hcol. rewrite map_map. apply map_ext. exact Hcol.
Qed.

(** X8: on a frame without empty names and without a stale name-index
    column (as the loader gives it), building the name index first does
    not change what the class summary returns, error included. *)
Theorem sortClassAndFindValues_after_sortName (w : World) (cls : string) :
  Forall (fun r => name r <> Some EmptyString /\ firstLetter r <> Some None)
         (meteordf w) ->
  fst (sortClassAndFindValues cls (snd (sortName upper w)))
  = fst (sortClassAndFindValues cls w).
Proof.
  intro Hall.
  destruct (named_or_nameless (meteordf w)) as [Hn | Hn];
    [|now rewrite (sortName_raise upper w Hn)].
  rewrite (sortClassAndFindValues_run cls (snd (sortName upper w))).
  rewrite sortClassAndFindValues_run, (sortName_run upper w Hn).
  cbv zeta. cbn [snd meteordf].
  rewrite (class_rows_setitem cls (meteordf w) Hall).
  destruct (class_rows cls (meteordf w)) as [|r g]; [reflexivity|].
  cbn [map fst].
  change (setitem_firstLetter upper r :: map (setitem_firstLetter upper) g)
    with (map (setitem_firstLetter upper) (r :: g)).
  rewrite !map_column_setitem by reflexivity.
  reflexivity.
Qed.

End AfterSortName.

Lemma sortClassAndFindValues_after_sortName_witness :
  fst (sortClassAndFindValues "L6" (snd (sortName upper_ascii scenario)))
  = fst (sortClassAndFindValues "L6" scenario).
Proof.
  apply sortClassAndFindValues_after_sortName.
  repeat constructor; discriminate.
Defined.

(** A row with the empty string as its name is summarised before the
    name index is built and dropped after: the index gives it a missing
    first letter. *)
Lemma sortClassAndFindValues_after_sortName_empty_name :
  let blank :=
    mkRow (Some 1%Z) (Some EmptyString) (Some "L6"%string)
          107000%float 54.2%float (-113.0)%float (Some 1952%Z) [] None in
  let w := mkWorld [blank] None in
  class_summary (fst (sortClassAndFindValues "L6" w))
    = Some (mkClassSummary 1 107000 107000 107000) /\
  fst (sortClassAndFindValues "L6" (snd (sortName upper_ascii w)))
    = Raise KeyError.
Proof. split; reflexivity. Qed.

(** ** The classification page *)

Lemma run_py_sortClassAndFindValues (cls : string) (df : DataFrame) (s : Session) :
  run_py (sortClassAndFindValues cls) df s =
  match class_rows cls df with
  | [] => (Failed (PyError KeyError), s)
  | r :: g' =>
      let g := r :: g' in
      (Done (mkClassValues (Series_mean (map mass_g df))
               (Series_mean (map reclat df)) (Series_mean (map reclong df))
               (group_mean (map mass_g g))
               (count (map name g)) (col_max (map mass_g g))
               (col_min (map mass_g g)), df),
       mkSession (session_page s) (Some "{:.0f}"%string) (screen s))
  end.
Proof.
  unfold run_py. rewrite sortClassAndFindValues_run. cbn [meteordf].
  destruct (class_rows cls df); [|reflexivity].
  cbn [float_format]. now rewrite session_eta.
Qed.

Lemma class_rows_nil_iff (cls : string) (df : DataFrame) :
  class_rows cls df = [] <->
  forall r, In r df -> recclass r = Some cls -> complete r = false.
Proof.
  rewrite class_rows_filter, filter_filter_andb.
  split.
  - intros Hnil r Hin Hc.
    pose proof (proj1 (filter_nil_iff _ df) Hnil r Hin) as Hr.
    simpl in Hr. unfold of_class in Hr.
    rewrite Hc, String.eqb_refl, andb_true_r in Hr. exact Hr.
  - intro Hall. apply filter_nil_iff. intros r Hin.
    destruct (complete r) eqn:Ec; [|reflexivity]. simpl.
    unfold of_class. destruct (recclass r) as [c|] eqn:Er; [|reflexivity].
    destruct (String.eqb_spec c cls) as [->|Hne]; [|reflexivity].
    rewrite (Hall r Hin Er) in Ec. discriminate.
Qed.

Lemma classificationPage_outcome (df : DataFrame) (cls : string) (s : Session) :
  match class_rows cls df with
  | [] =>
      exists t sub label,
        classificationPage df cls s =
        (Failed (PyError KeyError),
         mkSession (session_page s) (pd_float_format s)
           (screen s ++
            [st_title t; st_subheader sub;
             st_selectbox label (map VStr (class_options df))]))
  | _ => fst (classificationPage df cls s) = Done tt
  end.
Proof.
  unfold classificationPage, app_bind, emit. simpl.
  rewrite run_py_sortClassAndFindValues. simpl.
  destruct (class_rows cls df) as [|r g].
  - do 3 eexists. rewrite !app_assoc_screen. reflexivity.
  - cbv zeta. simpl.
    match goal with
    | |- context [if ?b then _ else _] => destruct b
    end; [reflexivity|].
    match goal with
    | |- context [if ?b then _ else _] => destruct b
    end; reflexivity.
Qed.

(** X9: the classification page fails with [KeyError] exactly when every
    row of the selected classification misses a value in some column,
    and succeeds otherwise; when it fails, the title, the subheader and
    the selectbox are on the screen and nothing else has changed. The
    selectbox does not guard against it: it offers every classification
    that occurs. *)
Theorem classificationPage_KeyError (df : DataFrame) (cls : string) (s : Session) :
  (fst (classificationPage df cls s) = Failed (PyError KeyError) <->
   forall r, In r df -> recclass r = Some cls -> complete r = false) /\
  (fst (classificationPage df cls s) = Done tt <->
   exists r, In r df /\ recclass r = Some cls /\ complete r = true) /\
  (fst (classificationPage df cls s) = Failed (PyError KeyError) ->
   exists t sub label,
     snd (classificationPage df cls s) =
     mkSession (session_page s) (pd_float_format s)
       (screen s ++
        [st_title t; st_subheader sub;
         st_selectbox label (map VStr (class_options df))])).
Proof.
  pose proof (classificationPage_outcome df cls s) as Hout.
  pose proof (class_rows_nil_iff cls df) as Hnil.
  destruct (class_rows cls df) as [|r0 g] eqn:E.
  - destruct Hout as [t [sub [label Hrun]]]. rewrite Hrun. simpl.
    split; [|split].
    + split; [intros _; now apply Hnil | reflexivity].
    + split; [discriminate|].
      intros [r [Hin [Hc Hr]]].
      rewrite (proj1 Hnil eq_refl r Hin Hc) in Hr. discriminate.
    + intros _. now exists t, sub, label.
  - rewrite Hout. split; [|split].
    + split; [discriminate|]. intro Hall. apply Hnil in Hall. discriminate.
    + split; [|reflexivity]. intros _.
      assert (Hin : In r0 (class_rows cls df)) by (rewrite E; now left).
      rewrite class_rows_filter in Hin.
      apply filter_In in Hin. destruct Hin as [Hin Hc].
      apply filter_In in Hin. destruct Hin as [Hin Hr].
      exists r0. split; [exact Hin|]. split; [|exact Hr].
      unfold of_class in Hc. destruct (recclass r0) as [c|]; [|discriminate].
      apply String.eqb_eq in Hc. now subst.
    + discriminate.
Qed.

(** On the scenario table the class L5 is offered by the selectbox and
    the page fails for it. *)
Lemma classificationPage_scenario_L5 :
  In "L5"%string (class_options [Abee; Ourique]) /\
  fst (classificationPage [Abee; Ourique] "L5" (mkSession None None []))
  = Failed (PyError KeyError).
Proof. split; [right; now left | reflexivity]. Qed.




(** On a table of three complete rows of one classification, of masses
    1e16, 1 and 1, the mean of the class (3333333333333334) and the mean
    of the whole column (3333333333333333.5) are taken over the same
    three masses and differ: the page writes that the class is heavier
    than the average meteorite. *)
Lemma classificationPage_one_class_heavier :
  let df := [boulder; pebble 2; pebble 3] in
  class_rows "L6" df = df /\
  group_mean (map mass_g df) = 3333333333333334%float /\
  Series_mean (map mass_g df) = 3333333333333333.5%float /\
  exists k7,
    last (screen (snd (classificationPage df "L6" (mkSession None None [])))) (st_title "")
    = st_write [VStr "L6"; VStr "on average have been heavier than the average meteorite which weighs";
                VFloat 3333333333333333.5; VStr k7]%string.
Proof.
  cbv zeta. repeat split. eexists. reflexivity.
Qed.

(** ** The name page *)

Lemma shown_nil (s : Session) : shown s [] = s.
Proof. unfold shown. rewrite app_nil_r. apply session_eta. Qed.

Lemma shown_shown (s : Session) (l1 l2 : list Event) :
  shown (shown s l1) l2 = shown s (l1 ++ l2).
Proof. unfold shown. simpl. now rewrite app_assoc. Qed.

Lemma emit_run (e : Event) (s : Session) : emit e s = (Done tt, shown s [e]).
Proof. reflexivity. Qed.

Lemma dict_get_some {V} (d : Series string V) (k : string) (v : V) (s : Session) :
  lookup d k = Some v -> dict_get d k s = (Done v, s).
Proof. unfold dict_get. now intros ->. Qed.

Lemma dict_get_none {V} (d : Series string V) (k : string) (s : Session) :
  lookup d k = None -> dict_get d k s = (Failed (PyError KeyError), s).
Proof. unfold dict_get. now intros ->. Qed.

Lemma value_of_some {V} (dflt : V) (d : Series string V) (k : string) :
  lookup d k <> None -> lookup d k = Some (value_of dflt d k).
Proof. unfold value_of. destruct (lookup d k); [reflexivity | congruence]. Qed.

Lemma present_or_missing {V} (d : Series string V) (ls : list string) :
  (forall l, In l ls -> lookup d l <> None) \/
  (exists l, In l ls /\ lookup d l = None).
Proof.
  induction ls as [|l ls [IH|[l' [Hin Hl']]]].
  - left. intros l [].
  - destruct (lookup d l) eqn:E.
    + left. intros l' [<-|Hin]; [congruence | now apply IH].
    + right. exists l. split; [now left | exact E].
  - right. exists l'. split; [now right | exact Hl'].
Qed.

Lemma in_keys_lookup {V} (d : Series string V) (k : string) :
  In k (map fst d) -> lookup d k <> None.
Proof.
  induction d as [|[k' v] d IH]; simpl; [tauto|].
  intros [->|Hin].
  - now rewrite keqb_refl.
  - destruct (keqb k k'); [discriminate | now apply IH].
Qed.

Lemma dict_set_new {V} (d : Series string V) (k : string) (v : V) :
  ~ In k (map fst d) -> dict_set d k v = d ++ [(k, v)].
Proof.
  induction d as [|[k' v'] d IH]; simpl; intro Hnin; [reflexivity|].
  destruct (keqb k k') eqn:E.
  - apply keqb_eq in E. subst. elim Hnin. now left.
  - rewrite IH; [reflexivity|]. intro Hin. apply Hnin. now right.
Qed.

(** Filling an empty [dict] with distinct keys keeps their order. *)
Lemma fold_dict_set_fresh {V} (f : string -> V) (ls : list string) :
  forall acc : Series string V,
  NoDup ls -> (forall l, In l ls -> ~ In l (map fst acc)) ->
  fold_left (fun a l => dict_set a l (f l)) ls acc
  = acc ++ map (fun l => (l, f l)) ls.
Proof.
  induction ls as [|l ls IH]; intros acc Hnd Hfresh; simpl.
  - now rewrite app_nil_r.
  - inversion Hnd as [|? ? Hnin Hnd']; subst.
    rewrite dict_set_new by (apply Hfresh; now left).
    rewrite IH; [now rewrite <- app_assoc | exact Hnd'|].
    intros l' Hin. rewrite map_app, in_app_iff. simpl.
    intros [Hacc|[<-|[]]].
    + apply (Hfresh l'); [now right | exact Hacc].
    + contradiction.
Qed.

Lemma lookup_map_pairs {V} (f : string -> V) (ls : list string) (k : string) :
  In k ls -> lookup (map (fun l => (l, f l)) ls) k = Some (f k).
Proof.
  induction ls as [|l ls IH]; simpl; [tauto|].
  intro Hin. destruct (keqb k l) eqn:E.
  - apply keqb_eq in E. now subst.
  - apply IH. destruct Hin as [->|Hin]; [|exact Hin].
    rewrite keqb_refl in E. discriminate.
Qed.

Lemma write_names_run (ns : list (option string)) : forall s : Session,
  write_names ns s = (Done tt, shown s (map (fun n => st_write [VCell n]) ns)).
Proof.
  induction ns as [|n ns IH]; intro s; simpl.
  - unfold app_ret. now rewrite shown_nil.
  - unfold app_bind. rewrite emit_run, IH, shown_shown. reflexivity.
Qed.

Lemma list_names_run (d : Series string (list (option string)))
  (ls : list string) : forall s : Session,
  (forall l, In l ls -> lookup d l <> None) ->
  list_names d ls s =
  (Done tt,
   shown s (flat_map
              (fun l => st_write [VStr l]
                        :: map (fun n => st_write [VCell n]) (value_of [] d l))
              ls)).
Proof.
  induction ls as [|l ls IH]; intros s Hall; simpl.
  - unfold app_ret. now rewrite shown_nil.
  - unfold app_bind. rewrite emit_run.
    rewrite (dict_get_some d l _ _ (value_of_some [] d l (Hall l (or_introl eq_refl)))).
    rewrite write_names_run, IH by (intros l' Hin; apply Hall; now right).
    rewrite !shown_shown. reflexivity.
Qed.

Lemma count_letters_run (d : Series string (list (option string)))
  (ls : list string) : forall (acc : Series string Z) (s : Session),
  (forall l, In l ls -> lookup d l <> None) ->
  count_letters d ls acc s =
  (Done (fold_left (fun a l => dict_set a l (len (value_of [] d l))) ls acc),
   shown s (map (fun l => st_write [VStr l; VStr ":"%string;
                                    VInt (len (value_of [] d l))]) ls)).
Proof.
  induction ls as [|l ls IH]; intros acc s Hall; simpl.
  - unfold app_ret. now rewrite shown_nil.
  - pose proof (value_of_some [] d l (Hall l (or_introl eq_refl))) as Hl.
    unfold app_bind.
    rewrite (dict_get_some d l _ _ Hl), emit_run, (dict_get_some d l _ _ Hl).
    rewrite IH by (intros l' Hin; apply Hall; now right).
    rewrite shown_shown. reflexivity.
Qed.

Lemma count_letters_fail (d : Series string (list (option string)))
  (ls : list string) : forall (acc : Series string Z) (s : Session),
  (exists l, In l ls /\ lookup d l = None) ->
  fst (count_letters d ls acc s) = Failed (PyError KeyError).
Proof.
  induction ls as [|l ls IH]; intros acc s [l0 [Hin Hl0]]; [contradiction|].
  simpl. unfold app_bind.
  destruct (lookup d l) as [ns|] eqn:E.
  - rewrite (dict_get_some d l ns _ E), emit_run, (dict_get_some d l ns _ E).
    apply IH. destruct Hin as [->|Hin]; [congruence|].
    exists l0. now split.
  - now rewrite (dict_get_none d l _ E).
Qed.

Lemma copy_in_order_run (d : Series string Z) (keys : list string) :
  forall (acc : Series string Z) (s : Session),
  (forall k, In k keys -> lookup d k <> None) ->
  copy_in_order d keys acc s =
  (Done (fold_left (fun a k => dict_set a k (value_of 0%Z d k)) keys acc), s).
Proof.
  induction keys as [|k keys IH]; intros acc s Hall; simpl; [reflexivity|].
  unfold app_bind.
  rewrite (dict_get_some d k _ _ (value_of_some 0%Z d k (Hall k (or_introl eq_refl)))).
  apply IH. intros k' Hin. apply Hall. now right.
Qed.

Lemma fold_left_ext {A B} (f g : A -> B -> A) (l : list B) :
  (forall a b, f a b = g a b) ->
  forall acc, fold_left f l acc = fold_left g l acc.
Proof.
  intro Hext. induction l as [|b l IH]; intro acc; simpl; [reflexivity|].
  now rewrite Hext, IH.
Qed.

Section NamePageFacts.
Variable upper : string -> string.

Lemma namesDict_lookup (df : DataFrame) (k : string) :
  lookup (map (fun kv : string * list Row => (fst kv, map name (snd kv)))
            (groupby firstLetter_key (map (setitem_firstLetter upper) df))) k
  = match filter (starts_under upper k) df with
    | [] => None
    | _ => Some (names_under upper df k)
    end.
Proof.
  rewrite lookup_map_values, groupby_lookup, rows_with_firstLetter.
  unfold names_under.
  destruct (filter (starts_under upper k) df) as [|r g]; [reflexivity|].
  cbn [map nonempty option_map]. f_equal.
  change (setitem_firstLetter upper r :: map (setitem_firstLetter upper) g)
    with (map (setitem_firstLetter upper) (r :: g)).
  now rewrite name_setitem.
Qed.

Lemma namesDict_missing (df : DataFrame) (k : string) :
  lookup (map (fun kv : string * list Row => (fst kv, map name (snd kv)))
            (groupby firstLetter_key (map (setitem_firstLetter upper) df))) k
  = None
  <-> forall r, In r df -> starts_under upper k r = false.
Proof.
  rewrite namesDict_lookup, <- filter_nil_iff.
  destruct (filter (starts_under upper k) df); split; congruence.
Qed.

Lemma namesDict_value (df : DataFrame) (k : string) :
  value_of []
    (map (fun kv : string * list Row => (fst kv, map name (snd kv)))
       (groupby firstLetter_key (map (setitem_firstLetter upper) df))) k
  = names_under upper df k.
Proof.
  unfold value_of. rewrite namesDict_lookup. unfold names_under.
  destruct (filter (starts_under upper k) df); reflexivity.
Qed.

Lemma run_py_sortName (df : DataFrame) (s : Session) :
  named df ->
  run_py (sortName upper) df s =
  (Done (map (fun kv : string * list Row => (fst kv, map name (snd kv)))
           (groupby firstLetter_key (map (setitem_firstLetter upper) df)),
         map (setitem_firstLetter upper) df),
   s).
Proof.
  intro Hn. unfold run_py. rewrite sortName_run by exact Hn.
  cbv zeta. cbn [meteordf float_format].
  now rewrite session_eta.
Qed.

Lemma run_py_sortName_raise (df : DataFrame) (s : Session) :
  nameless df ->
  run_py (sortName upper) df s = (Failed (PyError AttributeError), s).
Proof.
  intro Hn. unfold run_py. rewrite sortName_raise by exact Hn.
  cbn [meteordf float_format]. now rewrite session_eta.
Qed.

(** On a frame with rows and no name the page stops in [sortName], with
    the title and the subheader on the screen. *)
Lemma namepage_nameless
  (df : DataFrame) (ls : list string) (alpha : bool) (s : Session) :
  nameless df ->
  exists t sub,
    namepage upper df ls alpha s =
    (Failed (PyError AttributeError), shown s [st_title t; st_subheader sub]).
Proof.
  intro Hn. do 2 eexists.
  unfold namepage, app_bind.
  rewrite !emit_run. cbv beta iota.
  rewrite (run_py_sortName_raise _ _ Hn). cbv beta iota.
  rewrite shown_shown. reflexivity.
Qed.

Lemma namepage_missing
  (df : DataFrame) (ls : list string) (alpha : bool) (s : Session) :
  named df ->
  (exists l, In l ls /\ forall r, In r df -> starts_under upper l r = false) ->
  fst (namepage upper df ls alpha s) = Failed (PyError KeyError).
Proof.
  intros Hn [l [Hin Hl]]. apply namesDict_missing in Hl.
  unfold namepage, app_bind.
  rewrite !emit_run. cbv beta iota.
  rewrite (run_py_sortName _ _ Hn). cbv beta iota zeta. cbn [fst].
  rewrite emit_run. cbv beta iota.
  match goal with
  | |- context [count_letters ?d ls [] ?s0] =>
      pose proof (count_letters_fail d ls [] s0
                    (ex_intro _ l (conj Hin Hl))) as Hfail;
      destruct (count_letters d ls [] s0) as [[dict|f] s1]
  end; simpl in Hfail; [discriminate|].
  simpl. injection Hfail as ->. reflexivity.
Qed.

(** The [dict] of counts after the first loop, and the one the bar chart
    is drawn from. *)
Lemma namepage_present
  (df : DataFrame) (ls : list string) (alpha : bool) (s : Session) :
  named df ->
  (forall l, In l ls -> exists r, In r df /\ starts_under upper l r = true) ->
  let dict :=
    fold_left (fun a l => dict_set a l (len (names_under upper df l))) ls [] in
  let sorted :=
    if alpha
    then fold_left (fun a k => dict_set a k (value_of 0%Z dict k))
           (sort_keys (map fst dict)) []
    else dict in
  exists t sub label check caption,
    namepage upper df ls alpha s =
    (Done tt,
     shown s
       ([st_title t; st_subheader sub; st_multiselect label (map VStr alphabet)]
        ++ map (count_line upper df) ls
        ++ [st_checkbox check;
            st_pyplot_bar (map fst sorted) (map snd sorted) caption]
        ++ flat_map (listing upper df) ls)).
Proof.
  intros Hn Hall dict sorted.
  set (d := map (fun kv : string * list Row => (fst kv, map name (snd kv)))
              (groupby firstLetter_key (map (setitem_firstLetter upper) df))).
  assert (Hpresent : forall l, In l ls -> lookup d l <> None).
  { intros l Hin Hnone.
    pose proof (proj1 (namesDict_missing df l) Hnone) as Hnone'.
    destruct (Hall l Hin) as [r [Hr Hs]]. rewrite (Hnone' r Hr) in Hs.
    discriminate. }
  assert (Hdict :
            fold_left (fun a l => dict_set a l (len (value_of [] d l))) ls []
            = dict).
  { unfold dict. apply fold_left_ext. intros a l.
    unfold d. now rewrite namesDict_value. }
  do 5 eexists.
  unfold namepage, app_bind.
  rewrite !emit_run. cbv beta iota.
  rewrite (run_py_sortName _ _ Hn). cbv beta iota zeta. cbn [fst]. fold d.
  rewrite emit_run. cbv beta iota.
  rewrite (count_letters_run d ls [] _ Hpresent). cbv beta iota.
  rewrite Hdict, emit_run. cbv beta iota.
  assert (Hcopy : forall s0,
             (if alpha
              then copy_in_order dict (sort_keys (map fst dict)) []
              else app_ret dict) s0 = (Done sorted, s0)).
  { intro s0. unfold sorted. destruct alpha; [|reflexivity].
    apply copy_in_order_run. intros k Hin.
    apply in_keys_lookup. exact (proj1 (sort_keys_In _ _) Hin). }
  rewrite Hcopy. cbv beta iota.
  rewrite emit_run. cbv beta iota.
  rewrite (list_names_run d ls _ Hpresent).
  rewrite !shown_shown.
  assert (Hlines :
            map (fun l => st_write [VStr l; VStr ":"%string;
                                    VInt (len (value_of [] d l))]) ls
            = map (count_line upper df) ls).
  { apply map_ext. intro l. unfold count_line, d. now rewrite namesDict_value. }
  assert (Hlist :
            flat_map
              (fun l => st_write [VStr l]
                        :: map (fun n => st_write [VCell n]) (value_of [] d l))
              ls
            = flat_map (listing upper df) ls).
  { apply flat_map_ext. intro l. unfold listing, d. now rewrite namesDict_value. }
  rewrite Hlines, Hlist. reflexivity.
Qed.

End NamePageFacts.

Section NamePageTheorems.
Variable upper : string -> string.

Lemma namesDict_present (df : DataFrame) (k : string) :
  lookup (map (fun kv : string * list Row => (fst kv, map name (snd kv)))
            (groupby firstLetter_key (map (setitem_firstLetter upper) df))) k
  <> None
  <-> exists r, In r df /\ starts_under upper k r = true.
Proof.
  rewrite namesDict_lookup.
  destruct (filter (starts_under upper k) df) as [|r g] eqn:E; split.
  - congruence.
  - intros [r [Hin Hr]].
    assert (Hf : In r (filter (starts_under upper k) df))
      by (apply filter_In; now split).
    rewrite E in Hf. contradiction.
  - intros _. exists r. apply filter_In. rewrite E. now left.
  - discriminate.
Qed.

Lemma letters_present_or_missing (df : DataFrame) (ls : list string) :
  (forall l, In l ls -> exists r, In r df /\ starts_under upper l r = true) \/
  (exists l, In l ls /\ forall r, In r df -> starts_under upper l r = false).
Proof.
  destruct (present_or_missing
              (map (fun kv : string * list Row => (fst kv, map name (snd kv)))
                 (groupby firstLetter_key (map (setitem_firstLetter upper) df)))
              ls) as [Hall|[l [Hin Hl]]].
  - left. intros l Hin. apply namesDict_present. now apply Hall.
  - right. exists l. split; [exact Hin|]. now apply namesDict_missing.
Qed.

(** X11: the name page fails with [AttributeError] exactly when the
    table has rows and no name ([sortName] raises); it fails with
    [KeyError] exactly when the table is not such a table and some
    selected letter is the upper-cased first character of no name of the
    table; and it succeeds exactly when the table is not such a table and
    every selected letter has a name. The menu of letters offers all
    twenty-six whatever the table holds. *)
Theorem namepage_KeyError
  (df : DataFrame) (ls : list string) (alpha : bool) (s : Session) :
  (fst (namepage upper df ls alpha s) = Failed (PyError AttributeError) <->
   nameless df) /\
  (fst (namepage upper df ls alpha s) = Failed (PyError KeyError) <->
   named df /\
   exists l, In l ls /\ forall r, In r df -> starts_under upper l r = false) /\
  (fst (namepage upper df ls alpha s) = Done tt <->
   named df /\
   forall l, In l ls -> exists r, In r df /\ starts_under upper l r = true).
Proof.
  destruct (named_or_nameless df) as [Hn | Hn].
  - pose proof (named_not_nameless df Hn) as Hnn.
    destruct (letters_present_or_missing df ls) as [Hall|Hmiss].
    + destruct (namepage_present upper df ls alpha s Hn Hall)
        as [t [sub [label [check [caption Hrun]]]]].
      rewrite Hrun. cbn [fst]. split; [|split].
      * split; [discriminate | intro H; now elim Hnn].
      * split; [discriminate|].
        intros [_ [l [Hin Hl]]]. destruct (Hall l Hin) as [r [Hr Hs]].
        rewrite (Hl r Hr) in Hs. discriminate.
      * split; [intros _; now split | reflexivity].
    + rewrite (namepage_missing upper df ls alpha s Hn Hmiss). split; [|split].
      * split; [discriminate | intro H; now elim Hnn].
      * split; [intros _; now split | reflexivity].
      * split; [discriminate|].
        intros [_ Hall]. destruct Hmiss as [l [Hin Hl]].
        destruct (Hall l Hin) as [r [Hr Hs]].
        rewrite (Hl r Hr) in Hs. discriminate.
  - destruct (namepage_nameless upper df ls alpha s Hn) as [t [sub Hrun]].
    rewrite Hrun. cbn [fst]. split; [|split].
    + split; [intros _; exact Hn | reflexivity].
    + split; [discriminate|]. intros [Hn' _]. now elim (named_not_nameless df Hn').
    + split; [discriminate|]. intros [Hn' _]. now elim (named_not_nameless df Hn').
Qed.

Lemma counts_dict (df : DataFrame) (ls : list string) :
  NoDup ls ->
  fold_left (fun a l => dict_set a l (len (names_under upper df l))) ls []
  = map (fun l => (l, len (names_under upper df l))) ls.
Proof.
  intro Hnd.
  rewrite (fold_dict_set_fresh (fun l => len (names_under upper df l)) ls []
             Hnd); [reflexivity|].
  intros l _ [].
Qed.

Lemma keys_of_pairs {V} (f : string -> V) (ls : list string) :
  map fst (map (fun l => (l, f l)) ls) = ls.
Proof. rewrite map_map. apply map_id. Qed.

Lemma values_of_pairs {V} (f : string -> V) (ls : list string) :
  map snd (map (fun l => (l, f l)) ls) = map f ls.
Proof. now rewrite map_map. Qed.

Lemma sorted_counts_dict (df : DataFrame) (ls : list string) :
  NoDup ls ->
  let dict := map (fun l => (l, len (names_under upper df l))) ls in
  fold_left (fun a k => dict_set a k (value_of 0%Z dict k))
    (sort_keys (map fst dict)) []
  = map (fun k => (k, len (names_under upper df k))) (sort_keys ls).
Proof.
  intros Hnd dict. unfold dict at 2. rewrite keys_of_pairs.
  assert (Hnd' : NoDup (sort_keys ls)).
  { eapply Permutation_NoDup; [symmetry; apply sort_keys_perm | exact Hnd]. }
  rewrite (fold_dict_set_fresh (fun k => value_of 0%Z dict k) (sort_keys ls) []
             Hnd') by (intros l _ []).
  simpl. apply map_ext_in. intros k Hin.
  unfold value_of, dict.
  rewrite lookup_map_pairs; [reflexivity|].
  exact (proj1 (sort_keys_In _ _) Hin).
Qed.

(** X12: on a table that is empty or holds a name, for a selection of
    distinct letters that all have names, the name page succeeds and
    shows, in this order: title, subheader and the menu of letters; one
    count line per selected letter, in the order of the selection, with
    the number of names under the letter; the checkbox; a bar chart with
    one bar per selected letter, as high as the number of names under it,
    the bars in the order of the selection, or in ascending order of the
    letters when the checkbox is ticked; and under every selected letter
    its names in row order. *)
Theorem namepage_screen
  (df : DataFrame) (ls : list string) (alpha : bool) (s : Session) :
  named df ->
  NoDup ls ->
  (forall l, In l ls -> exists r, In r df /\ starts_under upper l r = true) ->
  let keys := if alpha then sort_keys ls else ls in
  Permutation keys ls /\
  (alpha = true -> StronglySorted (fun a b => String.compare a b = Lt) keys) /\
  exists t sub label check caption,
    namepage upper df ls alpha s =
    (Done tt,
     shown s
       ([st_title t; st_subheader sub; st_multiselect label (map VStr alphabet)]
        ++ map (count_line upper df) ls
        ++ [st_checkbox check;
            st_pyplot_bar keys
              (map (fun k => len (names_under upper df k)) keys) caption]
        ++ flat_map (listing upper df) ls)).
Proof.
  intros Hn Hnd Hall keys. split; [|split].
  - unfold keys. destruct alpha; [apply sort_keys_perm | reflexivity].
  - intros ->. exact (sort_keys_strict (K := string) ls Hnd).
  - destruct (namepage_present upper df ls alpha s Hn Hall)
      as [t [sub [label [check [caption Hrun]]]]].
    exists t, sub, label, check, caption. rewrite Hrun.
    rewrite (counts_dict df ls Hnd).
    do 2 f_equal. do 2 f_equal.
    unfold keys. destruct alpha.
    + rewrite (sorted_counts_dict df ls Hnd).
      now rewrite keys_of_pairs, values_of_pairs.
    + now rewrite keys_of_pairs, values_of_pairs.
Qed.

End NamePageTheorems.

Lemma namepage_screen_witness :
  let df := [Abee; Ourique] in
  let ls := ["O"; "A"]%string in
  let s := mkSession None None [] in
  let keys := sort_keys ls in
  Permutation keys ls /\
  (true = true -> StronglySorted (fun a b => String.compare a b = Lt) keys) /\
  exists t sub label check caption,
    namepage upper_ascii df ls true s =
    (Done tt,
     shown s
       ([st_title t; st_subheader sub; st_multiselect label (map VStr alphabet)]
        ++ map (count_line upper_ascii df) ls
        ++ [st_checkbox check;
            st_pyplot_bar keys
              (map (fun k => len (names_under upper_ascii df k)) keys) caption]
        ++ flat_map (listing upper_ascii df) ls)).
Proof.
  apply (namepage_screen upper_ascii [Abee; Ourique] ["O"; "A"]%string true).
  - exact scenario_named.
  - repeat constructor; simpl; intuition discriminate.
  - intros l [<-|[<-|[]]].
    + exists Ourique. split; [right; now left | reflexivity].
    + exists Abee. split; [now left | reflexivity].
Defined.

(** ** Navigation and the main function *)

Lemma nav_menu_choice (choice : string) (s : Session) :
  In choice menu ->
  nav choice s =
  (Done menu,
   mkSession (Some choice) (pd_float_format s)
     (screen s ++ [st_sidebar_selectbox "Select a page"%string menu])).
Proof.
  intros [<-|[<-|[<-|[<-|[<-|[]]]]]]; destruct s as [[p|] f scr]; reflexivity.
Qed.

Lemma nav_any_choice (choice : string) (s : Session) :
  exists p,
    nav choice s =
    (Done menu,
     mkSession (Some p) (pd_float_format s)
       (screen s ++ [st_sidebar_selectbox "Select a page"%string menu])).
Proof.
  unfold nav, app_bind, has_page, emit, set_page, app_ret.
  destruct s as [[p|] f scr]; cbn [session_page isSome pd_float_format screen];
    repeat match goal with
           | |- context [String.eqb choice ?b] => destruct (String.eqb choice b)
           end; eexists; reflexivity.
Qed.

Section MainFacts.
Variable upper : string -> string.

Lemma main_after_nav (files : Files) (inp : Inputs) (s : Session) (df : DataFrame) :
  In (navigation inp) menu ->
  Meteorite_Landings_csv files = Some df ->
  let s1 := mkSession (Some (navigation inp)) (pd_float_format s)
              (screen s ++ [st_sidebar_selectbox "Select a page"%string menu]) in
  main upper files inp s =
  if String.eqb (navigation inp) "Home" then homePage files s1
  else if String.eqb (navigation inp) "Year"
       then meteorYearsPage df (yearsInput_ inp) s1
  else if String.eqb (navigation inp) "Map" then mapPage df s1
  else if String.eqb (navigation inp) "Classification"
       then classificationPage df (classInput_ inp) s1
  else namepage upper df (letterLst_ inp) (alphabetical_ inp) s1.
Proof.
  intros Hin Hcsv. cbv zeta.
  unfold main, app_bind. rewrite (nav_menu_choice _ s Hin).
  unfold getData. rewrite Hcsv. cbn [read_file app_ret].
  unfold get_page. cbn [session_page].
  remember (navigation inp) as choice eqn:Hchoice. clear Hchoice.
  destruct Hin as [<-|[<-|[<-|[<-|[<-|[]]]]]]; reflexivity.
Qed.

Lemma keeps_bind {A B} (c : App A) (k : A -> App B) :
  (forall s, session_page (snd (c s)) = session_page s) ->
  (forall a s, session_page (snd (k a s)) = session_page s) ->
  forall s, session_page (snd (app_bind c k s)) = session_page s.
Proof.
  intros Hc Hk s. unfold app_bind. specialize (Hc s).
  destruct (c s) as [[a|f] s']; simpl in *; [|exact Hc].
  now rewrite Hk.
Qed.

Lemma keeps_emit (e : Event) :
  forall s, session_page (snd (emit e s)) = session_page s.
Proof. reflexivity. Qed.

Lemma keeps_ret {A} (a : A) :
  forall s, session_page (snd (app_ret a s)) = session_page s.
Proof. reflexivity. Qed.

Lemma keeps_run_py {A} (c : Py A) (df : DataFrame) :
  forall s, session_page (snd (run_py c df s)) = session_page s.
Proof.
  intro s. unfold run_py.
  destruct (c (mkWorld df (pd_float_format s))) as [[a|e] w]; reflexivity.
Qed.

Lemma keeps_dict_get {V} (d : Series string V) (k : string) :
  forall s, session_page (snd (dict_get d k s)) = session_page s.
Proof. intro s. unfold dict_get. destruct (lookup d k); reflexivity. Qed.

Lemma keeps_read_file {A} (content : option A) :
  forall s, session_page (snd (read_file content s)) = session_page s.
Proof. intro s. destruct content; reflexivity. Qed.

Ltac keeps_page :=
  repeat first
    [ solve [intros; reflexivity]
    | apply keeps_emit | apply keeps_ret | apply keeps_run_py
    | apply keeps_dict_get | apply keeps_read_file
    | apply keeps_bind; [|intro]
    | progress cbv zeta
    | match goal with
      | |- forall s, session_page (snd ((if ?b then _ else _) s)) = _ =>
          destruct b
      end ].

Lemma keeps_write_names (ns : list (option string)) :
  forall s, session_page (snd (write_names ns s)) = session_page s.
Proof. induction ns as [|n ns IH]; simpl; keeps_page. exact IH. Qed.

Lemma keeps_list_names (d : Series string (list (option string)))
  (ls : list string) :
  forall s, session_page (snd (list_names d ls s)) = session_page s.
Proof.
  induction ls as [|l ls IH]; simpl; keeps_page;
    [apply keeps_write_names | exact IH].
Qed.

Lemma keeps_count_letters (d : Series string (list (option string)))
  (ls : list string) : forall (acc : Series string Z),
  forall s, session_page (snd (count_letters d ls acc s)) = session_page s.
Proof.
  induction ls as [|l ls IH]; intro acc; simpl; keeps_page. apply IH.
Qed.

Lemma keeps_copy_in_order (d : Series string Z) (keys : list string) :
  forall (acc : Series string Z),
  forall s, session_page (snd (copy_in_order d keys acc s)) = session_page s.
Proof.
  induction keys as [|k keys IH]; intro acc; simpl; keeps_page. apply IH.
Qed.

Lemma keeps_homePage (files : Files) :
  forall s, session_page (snd (homePage files s)) = session_page s.
Proof. unfold homePage. keeps_page. Qed.

Lemma keeps_mapPage (df : DataFrame) :
  forall s, session_page (snd (mapPage df s)) = session_page s.
Proof. unfold mapPage. keeps_page. Qed.

Lemma keeps_ax_pie (x : Series Z Z) :
  forall s, session_page (snd (ax_pie x s)) = session_page s.
Proof. intro s. unfold ax_pie. destruct (total x =? 0)%Z; reflexivity. Qed.

Lemma keeps_meteorYearsPage (df : DataFrame) (years : list Z) :
  forall s, session_page (snd (meteorYearsPage df years s)) = session_page s.
Proof. unfold meteorYearsPage. keeps_page. apply keeps_ax_pie. Qed.

Lemma keeps_classificationPage (df : DataFrame) (cls : string) :
  forall s, session_page (snd (classificationPage df cls s)) = session_page s.
Proof. unfold classificationPage. keeps_page. Qed.

Lemma keeps_namepage (df : DataFrame) (ls : list string) (alpha : bool) :
  forall s, session_page (snd (namepage upper df ls alpha s)) = session_page s.
Proof.
  unfold namepage. keeps_page;
    first [ apply keeps_count_letters | apply keeps_copy_in_order
          | apply keeps_list_names ].
Qed.

Lemma main_stores_choice (files : Files) (inp : Inputs) (s : Session) :
  In (navigation inp) menu ->
  session_page (snd (main upper files inp s)) = Some (navigation inp).
Proof.
  intro Hin.
  destruct (Meteorite_Landings_csv files) as [df|] eqn:Hcsv.
  - rewrite (main_after_nav files inp s df Hin Hcsv). cbv zeta.
    repeat match goal with
           | |- context [if ?b then _ else _] => destruct b
           end;
      first [ rewrite keeps_homePage | rewrite keeps_meteorYearsPage
            | rewrite keeps_mapPage | rewrite keeps_classificationPage
            | rewrite keeps_namepage ]; reflexivity.
  - unfold main, app_bind. rewrite (nav_menu_choice _ s Hin).
    unfold getData. rewrite Hcsv. reflexivity.
Qed.

(** X13: for a choice from the menu of the sidebar, a run of the script
    does not depend on the page stored in the session by earlier runs
    (nor on whether one is stored): outcome, screen and state are the
    same; and whether the run succeeds or fails, it leaves the choice
    stored as the page of the session. *)
Theorem main_ignores_stored_page
  (files : Files) (inp : Inputs) (p p' : option string)
  (fmt : option string) (scr : list Event) :
  In (navigation inp) menu ->
  main upper files inp (mkSession p fmt scr)
  = main upper files inp (mkSession p' fmt scr) /\
  session_page (snd (main upper files inp (mkSession p fmt scr)))
  = Some (navigation inp).
Proof.
  intro Hin. split; [|now apply main_stores_choice].
  unfold main, app_bind.
  now rewrite !(nav_menu_choice _ _ Hin).
Qed.

(** X14: when the data file cannot be read, a run fails with
    [FileNotFoundError] on every page, the home page included, which
    uses no data; only the sidebar has been shown. *)
Theorem main_unreadable_data (files : Files) (inp : Inputs) (s : Session) :
  Meteorite_Landings_csv files = None ->
  fst (main upper files inp s) = Failed FileNotFoundError /\
  screen (snd (main upper files inp s))
  = screen s ++ [st_sidebar_selectbox "Select a page"%string menu].
Proof.
  intro Hcsv. unfold main, app_bind.
  destruct (nav_any_choice (navigation inp) s) as [p ->].
  unfold getData. rewrite Hcsv. split; reflexivity.
Qed.

Lemma homePage_no_KeyError (files : Files) (s : Session) :
  fst (homePage files s) <> Failed (PyError KeyError).
Proof.
  unfold homePage, app_bind, emit. simpl.
  destruct (meteorite_png files); simpl; discriminate.
Qed.

Lemma classificationPage_fails_iff (df : DataFrame) (cls : string) (s : Session) :
  fst (classificationPage df cls s) = Failed (PyError KeyError) <->
  forall r, In r df -> recclass r = Some cls -> complete r = false.
Proof.
  pose proof (classificationPage_outcome df cls s) as Hout.
  rewrite <- class_rows_nil_iff.
  destruct (class_rows cls df) as [|r0 g].
  - destruct Hout as [t [sub [label ->]]]. simpl. split; reflexivity.
  - rewrite Hout. split; discriminate.
Qed.

Lemma namepage_fails_iff
  (df : DataFrame) (ls : list string) (alpha : bool) (s : Session) :
  fst (namepage upper df ls alpha s) = Failed (PyError KeyError) <->
  named df /\
  exists l, In l ls /\ forall r, In r df -> starts_under upper l r = false.
Proof.
  destruct (named_or_nameless df) as [Hn | Hn].
  - destruct (letters_present_or_missing upper df ls) as [Hall|Hmiss].
    + destruct (namepage_present upper df ls alpha s Hn Hall)
        as [t [sub [label [check [caption ->]]]]].
      cbn [fst]. split; [discriminate|].
      intros [_ [l [Hin Hl]]]. destruct (Hall l Hin) as [r [Hr Hs]].
      rewrite (Hl r Hr) in Hs. discriminate.
    + rewrite (namepage_missing upper df ls alpha s Hn Hmiss).
      split; [intros _; now split | reflexivity].
  - destruct (namepage_nameless upper df ls alpha s Hn) as [t [sub ->]].
    cbn [fst]. split; [discriminate|].
    intros [Hn' _]. now elim (named_not_nameless df Hn').
Qed.

(** X15: when the data file is readable, the sidebar choice is from the
    menu and the selected years are among the offered ones, a run fails
    with [KeyError] in exactly two cases: on the classification page,
    when every row of the selected classification misses some value;
    and on the name page, when the table is empty or holds a name and
    some selected letter starts no name (on a table with rows and no
    name the name page fails with [AttributeError] instead). *)
Theorem main_KeyError
  (files : Files) (inp : Inputs) (s : Session) (df : DataFrame) :
  Meteorite_Landings_csv files = Some df ->
  In (navigation inp) menu ->
  incl (yearsInput_ inp) (year_options df) ->
  fst (main upper files inp s) = Failed (PyError KeyError) <->
  (navigation inp = "Classification"%string /\
   forall r, In r df -> recclass r = Some (classInput_ inp) ->
             complete r = false) \/
  (navigation inp = "Names"%string /\
   named df /\
   exists l, In l (letterLst_ inp) /\
             forall r, In r df -> starts_under upper l r = false).
Proof.
  intros Hcsv Hin Hyears.
  rewrite (main_after_nav files inp s df Hin Hcsv). cbv zeta.
  set (s1 := mkSession _ _ _).
  destruct Hin as [Hn|[Hn|[Hn|[Hn|[Hn|[]]]]]]; rewrite <- Hn; cbn [String.eqb Ascii.eqb Bool.eqb].
  - split.
    + intro Hf. now apply homePage_no_KeyError in Hf.
    + intros [[Hc _]|[Hc _]]; discriminate.
  - unfold mapPage, app_bind, emit. simpl. split; [discriminate|].
    intros [[Hc _]|[Hc _]]; discriminate.
  - destruct (meteorYearsPage_run df (yearsInput_ inp) s1 Hyears)
      as [t [sub [label [caption [text ->]]]]].
    destruct (total _ =? 0)%Z; cbn [fst]; (split; [discriminate|]);
      intros [[Hc _]|[Hc _]]; discriminate.
  - rewrite classificationPage_fails_iff. split.
    + intro Hall. left. now split.
    + intros [[_ Hall]|[Hc _]]; [exact Hall | discriminate].
  - rewrite namepage_fails_iff. split.
    + intro Hmiss. right. now split.
    + intros [[Hc _]|[_ Hmiss]]; [discriminate | exact Hmiss].
Qed.

End MainFacts.

Lemma main_ignores_stored_page_witness :
  main upper_ascii scenario_files (scenario_inputs "Year")
    (mkSession (Some "home"%string) None [])
  = main upper_ascii scenario_files (scenario_inputs "Year")
      (mkSession None None []) /\
  session_page
    (snd (main upper_ascii scenario_files (scenario_inputs "Year")
            (mkSession (Some "home"%string) None [])))
  = Some (navigation (scenario_inputs "Year")).
Proof.
  apply (main_ignores_stored_page upper_ascii scenario_files
           (scenario_inputs "Year")).
  simpl. tauto.
Defined.

Lemma main_unreadable_data_witness :
  fst (main upper_ascii no_files (scenario_inputs "Home")
         (mkSession None None []))
  = Failed FileNotFoundError /\
  screen (snd (main upper_ascii no_files (scenario_inputs "Home")
                 (mkSession None None [])))
  = screen (mkSession None None [])
    ++ [st_sidebar_selectbox "Select a page"%string menu].
Proof.
  apply (main_unreadable_data upper_ascii no_files (scenario_inputs "Home")).
  reflexivity.
Defined.

Lemma main_KeyError_witness :
  let inp := scenario_inputs "Classification" in
  let df := [Abee; Ourique] in
  fst (main upper_ascii scenario_files inp (mkSession None None []))
  = Failed (PyError KeyError) <->
  (navigation inp = "Classification"%string /\
   forall r, In r df -> recclass r = Some (classInput_ inp) ->
             complete r = false) \/
  (navigation inp = "Names"%string /\
   named df /\
   exists l, In l (letterLst_ inp) /\
             forall r, In r df -> starts_under upper_ascii l r = false).
Proof.
  apply (main_KeyError upper_ascii scenario_files
           (scenario_inputs "Classification") (mkSession None None [])
           [Abee; Ourique]).
  - reflexivity.
  - simpl. tauto.
  - intros y [<-|[]]. vm_compute. tauto.
Defined.

(** On a table with rows and no name the run of the name page fails
    with [AttributeError], whatever letters are selected. *)
Lemma main_nameless_table :
  fst (main upper_ascii (mkFiles (Some [unnamed]) (Some "PNG"%string))
         (scenario_inputs "Names") (mkSession None None []))
  = Failed (PyError AttributeError).
Proof. reflexivity. Qed.

(** On the scenario table, with the class L5 selected, the run of the
    classification page fails; so does the run of the name page with
    the letters A and B selected. *)
Lemma main_scenario_failures :
  fst (main upper_ascii scenario_files (scenario_inputs "Classification")
         (mkSession None None []))
  = Failed (PyError KeyError) /\
  fst (main upper_ascii scenario_files (scenario_inputs "Names")
         (mkSession None None []))
  = Failed (PyError KeyError) /\
  fst (main upper_ascii scenario_files (scenario_inputs "Year")
         (mkSession None None []))
  = Done tt.
Proof. repeat split. Qed.
